(** * Consolidation engine of [scripts/consolidacion.py]

    A shallow embedding of the gold-layer computation of [main]: the snapshot
    generator (lines 105-117), the aging and aggregation loop (lines 122-285),
    the variance pass (lines 289-314) and the export (lines 316-343).

    Modelling conventions.
    - A pandas [Timestamp] is a calendar date [(year, month, day)]; [NaT] is
      [None].  The ledger's date columns and [now] are taken at day
      resolution (the time of day is dropped).
    - [Total] and [Monto] are exact integers (amounts in hundredths of the
      currency unit) instead of binary floating point.
    - [months_overdue = days_overdue / 30.44] is an exact rational.  For an
      integer number of days the quotient is never within 1e-3 of the
      thresholds 3, 6 and 12, so the comparisons of the source are not
      affected by floating-point rounding.
    - A dataframe is the list of its rows, in index order. *)

From Stdlib Require Import ZArith QArith Qround Lia List Bool String Ascii.
From Stdlib Require Import Permutation.
Import ListNotations.
Local Open Scope Z_scope.

(** ** Timestamps *)

Module Ts.

Record Timestamp : Set := mkTs { year : Z; month : Z; day : Z }.

Definition eqb (a b : Timestamp) : bool :=
  (year a =? year b) && (month a =? month b) && (day a =? day b).

(** Chronological order on timestamps ([<], [<=], [>] of pandas). *)
Definition ltb (a b : Timestamp) : bool :=
  (year a <? year b)
  || ((year a =? year b)
      && ((month a <? month b)
          || ((month a =? month b) && (day a <? day b)))).

Definition leb (a b : Timestamp) : bool := ltb a b || eqb a b.
Definition gtb (a b : Timestamp) : bool := ltb b a.

Definition is_leap (y : Z) : bool :=
  (y mod 4 =? 0) && (negb (y mod 100 =? 0) || (y mod 400 =? 0)).

Definition days_in_month (y m : Z) : Z :=
  if m =? 2 then (if is_leap y then 29 else 28)
  else if (m =? 4) || (m =? 6) || (m =? 9) || (m =? 11) then 30
  else 31.

(** Number of days before January 1st of year [y] (proleptic Gregorian). *)
Definition days_before_year (y : Z) : Z :=
  let p := y - 1 in p * 365 + p / 4 - p / 100 + p / 400.

(** Number of days of year [y] before the first day of month [m]. *)
Definition days_before_month (y m : Z) : Z :=
  (if m =? 1 then 0 else if m =? 2 then 31 else if m =? 3 then 59
   else if m =? 4 then 90 else if m =? 5 then 120 else if m =? 6 then 151
   else if m =? 7 then 181 else if m =? 8 then 212 else if m =? 9 then 243
   else if m =? 10 then 273 else if m =? 11 then 304 else 334)
  + (if (2 <? m) && is_leap y then 1 else 0).

Definition toordinal (t : Timestamp) : Z :=
  days_before_year (year t) + days_before_month (year t) (month t) + day t.

(** [(a - b).days] *)
Definition days_between (a b : Timestamp) : Z := toordinal a - toordinal b.

(** [t.replace(day=1)] *)
Definition replace_day1 (t : Timestamp) : Timestamp :=
  mkTs (year t) (month t) 1.

(** Months counted from year 0: the position of a month on the time axis. *)
Definition month_index (t : Timestamp) : Z := year t * 12 + (month t - 1).

Definition month_start (n : Z) : Timestamp := mkTs (n / 12) (n mod 12 + 1) 1.

(** [t + pd.DateOffset(months=k)]: the month moves by [k], the day is kept
    and clipped to the length of the target month. *)
Definition DateOffset_months (k : Z) (t : Timestamp) : Timestamp :=
  let n := month_index t + k in
  let y := n / 12 in
  let m := n mod 12 + 1 in
  mkTs y m (Z.min (day t) (days_in_month y m)).

(** A calendar date. *)
Definition valid (t : Timestamp) : Prop :=
  1 <= month t <= 12 /\ 1 <= day t <= days_in_month (year t) (month t).

Definition max (a b : Timestamp) : Timestamp := if ltb a b then b else a.
Definition min (a b : Timestamp) : Timestamp := if ltb b a then b else a.

End Ts.

(** [pd.date_range(start=s, end=e, freq='MS')] for a [start] that lies on a
    month start, as [main] calls it: [s], [s + 1 month], ... up to the last
    month start that is [<= e]. *)
Definition date_range_MS (s e : Ts.Timestamp) : list Ts.Timestamp :=
  let first := Ts.month_index s in
  let last := if Ts.leb (Ts.month_start (Ts.month_index e)) e
              then Ts.month_index e else Ts.month_index e - 1 in
  map (fun i => Ts.month_start (first + Z.of_nat i))
      (seq 0 (Z.to_nat (last - first + 1))).

Example toordinal_2024_01_10 : Ts.toordinal (Ts.mkTs 2024 1 10) = 738895.
Proof. reflexivity. Qed.

Example days_jan10_may1 :
  Ts.days_between (Ts.mkTs 2024 5 1) (Ts.mkTs 2024 1 10) = 112.
Proof. reflexivity. Qed.

Example date_range_jan_apr :
  date_range_MS (Ts.mkTs 2024 1 1) (Ts.mkTs 2024 4 1)
  = [Ts.mkTs 2024 1 1; Ts.mkTs 2024 2 1; Ts.mkTs 2024 3 1; Ts.mkTs 2024 4 1].
Proof. reflexivity. Qed.

(** ** The ledger *)

(** One row of [df_consolidado] after cleaning. *)
Record Invoice : Set := mkInvoice {
  Cliente : string;
  Num : string;
  Fecha : option Ts.Timestamp;
  Vencimiento : option Ts.Timestamp;
  Fecha_de_cobro : option Ts.Timestamp;
  Total : Z
}.

Definition Ledger := list Invoice.

(** [Series.min()] / [Series.max()] of a datetime column: [NaT] entries are
    skipped, and the result is [NaT] when there is no other entry. *)
Fixpoint column_min (l : list (option Ts.Timestamp)) : option Ts.Timestamp :=
  match l with
  | [] => None
  | None :: r => column_min r
  | Some t :: r =>
      match column_min r with
      | None => Some t
      | Some u => Some (Ts.min t u)
      end
  end.

Fixpoint column_max (l : list (option Ts.Timestamp)) : option Ts.Timestamp :=
  match l with
  | [] => None
  | None :: r => column_max r
  | Some t :: r =>
      match column_max r with
      | None => Some t
      | Some u => Some (Ts.max t u)
      end
  end.

(** [Series.unique()]: the distinct values in order of first appearance. *)
Fixpoint unique (l : list string) : list string :=
  match l with
  | [] => []
  | x :: r => x :: filter (fun y => negb (String.eqb x y)) (unique r)
  end.

(** [', '.join(l)] *)
Fixpoint join (l : list string) : string :=
  match l with
  | [] => EmptyString
  | [x] => x
  | x :: r => x ++ ", " ++ join r
  end.

Definition sum_Z (l : list Z) : Z := fold_right Z.add 0 l.

(** ** Concepts and gold rows *)

Inductive Concept : Set :=
| Facturacion_Mensual
| Deuda_0_3
| Deuda_3_6
| Deuda_6_12
| Deuda_gt_12
| Alerta_Paso_3
| Pagos_Deuda_Post_Inicio
| Pagos_Alerta_Post_Inicio.

(** The value stored in column ['Concepto']. *)
Definition Concept_label (c : Concept) : string :=
  match c with
  | Facturacion_Mensual => "Facturación Mensual"
  | Deuda_0_3 => "Deuda 0-3 Meses"
  | Deuda_3_6 => "Deuda 3-6 Meses"
  | Deuda_6_12 => "Deuda 6-12 Meses"
  | Deuda_gt_12 => "Deuda > 12 Meses"
  | Alerta_Paso_3 => "Alerta: Pasó 3 Meses"
  | Pagos_Deuda_Post_Inicio => "Pagos Deuda Post-Inicio"
  | Pagos_Alerta_Post_Inicio => "Pagos Alerta Post-Inicio"
  end.

Definition Concept_eqb (a b : Concept) : bool :=
  match a, b with
  | Facturacion_Mensual, Facturacion_Mensual
  | Deuda_0_3, Deuda_0_3
  | Deuda_3_6, Deuda_3_6
  | Deuda_6_12, Deuda_6_12
  | Deuda_gt_12, Deuda_gt_12
  | Alerta_Paso_3, Alerta_Paso_3
  | Pagos_Deuda_Post_Inicio, Pagos_Deuda_Post_Inicio
  | Pagos_Alerta_Post_Inicio, Pagos_Alerta_Post_Inicio => true
  | _, _ => false
  end.

(** One dictionary appended to [gold_rows]. *)
Record GoldRow : Set := mkGoldRow {
  Fecha_Reporte : Ts.Timestamp;
  G_Cliente : string;
  Concepto : Concept;
  Monto : Z;
  Es_Mes_Actual : bool;
  Numero_Facturas : nat;
  Lista_Facturas : string
}.

(** ** Aging of one invoice *)

(** [days / 30.44] *)
Definition months_of_days (days : Z) : Q := inject_Z days / (3044 # 100).

Definition Qltb (x y : Q) : bool := negb (Qle_bool y x).
Definition Qgeb (x y : Q) : bool := Qle_bool y x.

(** [pd.isna(payment_date) or (payment_date > snapshot_date)] *)
Definition is_unpaid (snapshot_date : Ts.Timestamp) (inv : Invoice) : bool :=
  match Fecha_de_cobro inv with
  | None => true
  | Some p => Ts.gtb p snapshot_date
  end.

(** The accumulators of one [(snapshot, client)] iteration (lines 151-166). *)
Record Acc : Set := mkAcc {
  deuda_lt_3_sum : Z;          list_lt_3 : list string;
  deuda_3_6_sum : Z;           list_3_6 : list string;
  deuda_6_12_sum : Z;          list_6_12 : list string;
  deuda_gt_12_sum : Z;         list_gt_12 : list string;
  crossed_3_months_sum : Z;    list_crossed : list string;
  paid_debt_post_start_sum : Z; list_paid_post_start : list string;
  paid_alert_post_start_sum : Z; list_paid_alert : list string
}.

Definition Acc0 : Acc := mkAcc 0 [] 0 [] 0 [] 0 [] 0 [] 0 [] 0 [].

(** The four-way [if]/[elif] chain of lines 181-192. *)
Definition add_bucket (months_overdue : Q) (total : Z) (inv_num : string)
    (a : Acc) : Acc :=
  if Qltb months_overdue 3 then
    mkAcc (deuda_lt_3_sum a + total) (list_lt_3 a ++ [inv_num])
          (deuda_3_6_sum a) (list_3_6 a) (deuda_6_12_sum a) (list_6_12 a)
          (deuda_gt_12_sum a) (list_gt_12 a)
          (crossed_3_months_sum a) (list_crossed a)
          (paid_debt_post_start_sum a) (list_paid_post_start a)
          (paid_alert_post_start_sum a) (list_paid_alert a)
  else if Qgeb months_overdue 3 && Qltb months_overdue 6 then
    mkAcc (deuda_lt_3_sum a) (list_lt_3 a)
          (deuda_3_6_sum a + total) (list_3_6 a ++ [inv_num])
          (deuda_6_12_sum a) (list_6_12 a)
          (deuda_gt_12_sum a) (list_gt_12 a)
          (crossed_3_months_sum a) (list_crossed a)
          (paid_debt_post_start_sum a) (list_paid_post_start a)
          (paid_alert_post_start_sum a) (list_paid_alert a)
  else if Qgeb months_overdue 6 && Qltb months_overdue 12 then
    mkAcc (deuda_lt_3_sum a) (list_lt_3 a) (deuda_3_6_sum a) (list_3_6 a)
          (deuda_6_12_sum a + total) (list_6_12 a ++ [inv_num])
          (deuda_gt_12_sum a) (list_gt_12 a)
          (crossed_3_months_sum a) (list_crossed a)
          (paid_debt_post_start_sum a) (list_paid_post_start a)
          (paid_alert_post_start_sum a) (list_paid_alert a)
  else if Qgeb months_overdue 12 then
    mkAcc (deuda_lt_3_sum a) (list_lt_3 a) (deuda_3_6_sum a) (list_3_6 a)
          (deuda_6_12_sum a) (list_6_12 a)
          (deuda_gt_12_sum a + total) (list_gt_12 a ++ [inv_num])
          (crossed_3_months_sum a) (list_crossed a)
          (paid_debt_post_start_sum a) (list_paid_post_start a)
          (paid_alert_post_start_sum a) (list_paid_alert a)
  else a.

(** Lines 198-200. *)
Definition add_crossed (total : Z) (inv_num : string) (a : Acc) : Acc :=
  mkAcc (deuda_lt_3_sum a) (list_lt_3 a) (deuda_3_6_sum a) (list_3_6 a)
        (deuda_6_12_sum a) (list_6_12 a) (deuda_gt_12_sum a) (list_gt_12 a)
        (crossed_3_months_sum a + total) (list_crossed a ++ [inv_num])
        (paid_debt_post_start_sum a) (list_paid_post_start a)
        (paid_alert_post_start_sum a) (list_paid_alert a).

(** Lines 206-207. *)
Definition add_paid_post_start (total : Z) (inv_num : string) (a : Acc) : Acc :=
  mkAcc (deuda_lt_3_sum a) (list_lt_3 a) (deuda_3_6_sum a) (list_3_6 a)
        (deuda_6_12_sum a) (list_6_12 a) (deuda_gt_12_sum a) (list_gt_12 a)
        (crossed_3_months_sum a) (list_crossed a)
        (paid_debt_post_start_sum a + total) (list_paid_post_start a ++ [inv_num])
        (paid_alert_post_start_sum a) (list_paid_alert a).

(** Lines 211-212. *)
Definition add_paid_alert (total : Z) (inv_num : string) (a : Acc) : Acc :=
  mkAcc (deuda_lt_3_sum a) (list_lt_3 a) (deuda_3_6_sum a) (list_3_6 a)
        (deuda_6_12_sum a) (list_6_12 a) (deuda_gt_12_sum a) (list_gt_12 a)
        (crossed_3_months_sum a) (list_crossed a)
        (paid_debt_post_start_sum a) (list_paid_post_start a)
        (paid_alert_post_start_sum a + total) (list_paid_alert a ++ [inv_num]).

(** The body of the loop over [client_invoices.iterrows()] (lines 169-212). *)
Definition scan_invoice (snapshot_date : Ts.Timestamp) (a : Acc)
    (invoice : Invoice) : Acc :=
  let payment_date := Fecha_de_cobro invoice in
  let total := Total invoice in
  let inv_num := Num invoice in
  match Fecha invoice with
  | Some invoice_date =>
      if is_unpaid snapshot_date invoice then
        let days_overdue := Ts.days_between snapshot_date invoice_date in
        let months_overdue := months_of_days days_overdue in
        if 0 <? days_overdue then
          let a1 := add_bucket months_overdue total inv_num a in
          let prev_month_date := Ts.DateOffset_months (-1) snapshot_date in
          let days_overdue_prev := Ts.days_between prev_month_date invoice_date in
          let months_overdue_prev := months_of_days days_overdue_prev in
          let crossed := Qltb months_overdue_prev 3 && Qgeb months_overdue 3 in
          let a2 := if crossed then add_crossed total inv_num a1 else a1 in
          match payment_date with
          | Some _ =>
              let a3 := add_paid_post_start total inv_num a2 in
              if crossed then add_paid_alert total inv_num a3 else a3
          | None => a2
          end
        else a
      else a
  | None => a
  end.

(** ** One (snapshot, client) iteration *)

Definition in_month (snapshot_date : Ts.Timestamp) (inv : Invoice) : bool :=
  match Fecha inv with
  | Some d => (Ts.year d =? Ts.year snapshot_date)
              && (Ts.month d =? Ts.month snapshot_date)
  | None => false
  end.

(** [df_consolidado['Fecha'] <= snapshot_date]; a comparison with [NaT] is
    false. *)
Definition dated_up_to (snapshot_date : Ts.Timestamp) (inv : Invoice) : bool :=
  match Fecha inv with
  | Some d => Ts.leb d snapshot_date
  | None => false
  end.

Definition of_client (client : string) (inv : Invoice) : bool :=
  String.eqb (Cliente inv) client.

(** [client_billing_df] (lines 125-134). *)
Definition client_billing_df (df : Ledger) (snapshot_date : Ts.Timestamp)
    (client : string) : list Invoice :=
  filter (of_client client) (filter (in_month snapshot_date) df).

(** [client_invoices] (lines 130, 149). *)
Definition client_invoices (df : Ledger) (snapshot_date : Ts.Timestamp)
    (client : string) : list Invoice :=
  filter (of_client client) (filter (dated_up_to snapshot_date) df).

(** The accumulators after the loop of line 168. *)
Definition scan (df : Ledger) (snapshot_date : Ts.Timestamp) (client : string)
    : Acc :=
  fold_left (scan_invoice snapshot_date)
            (client_invoices df snapshot_date client) Acc0.

(** [if cond: gold_rows.append({...})] *)
Definition append_if (cond : bool) (snapshot_date : Ts.Timestamp)
    (client : string) (c : Concept) (amount : Z) (is_current_month : bool)
    (nums : list string) : list GoldRow :=
  if cond
  then [mkGoldRow snapshot_date client c amount is_current_month
                  (List.length nums) (join nums)]
  else [].

(** The rows appended for one [(snapshot_date, client)] pair, in the order
    of lines 137-285. *)
Definition client_rows (df : Ledger) (is_current_month : bool)
    (snapshot_date : Ts.Timestamp) (client : string) : list GoldRow :=
  let billing := client_billing_df df snapshot_date client in
  let client_billing := sum_Z (map Total billing) in
  let a := scan df snapshot_date client in
  let row := append_if in
  row (0 <? client_billing) snapshot_date client Facturacion_Mensual
      client_billing is_current_month (map Num billing)
  ++ row (0 <? deuda_lt_3_sum a) snapshot_date client Deuda_0_3
         (deuda_lt_3_sum a) is_current_month (list_lt_3 a)
  ++ row (0 <? deuda_3_6_sum a) snapshot_date client Deuda_3_6
         (deuda_3_6_sum a) is_current_month (list_3_6 a)
  ++ row (0 <? deuda_6_12_sum a) snapshot_date client Deuda_6_12
         (deuda_6_12_sum a) is_current_month (list_6_12 a)
  ++ row (0 <? deuda_gt_12_sum a) snapshot_date client Deuda_gt_12
         (deuda_gt_12_sum a) is_current_month (list_gt_12 a)
  ++ row (0 <? crossed_3_months_sum a) snapshot_date client Alerta_Paso_3
         (crossed_3_months_sum a) is_current_month (list_crossed a)
  ++ row (is_current_month && (0 <? paid_debt_post_start_sum a))
         snapshot_date client Pagos_Deuda_Post_Inicio
         (paid_debt_post_start_sum a) is_current_month (list_paid_post_start a)
  ++ row (is_current_month && (0 <? paid_alert_post_start_sum a))
         snapshot_date client Pagos_Alerta_Post_Inicio
         (paid_alert_post_start_sum a) is_current_month (list_paid_alert a).

(** Line 123. *)
Definition is_current_month (now snapshot_date : Ts.Timestamp) : bool :=
  (Ts.year snapshot_date =? Ts.year now)
  && (Ts.month snapshot_date =? Ts.month now).

(** The body of the loop over [date_range] (lines 123-285). *)
Definition snapshot_rows (df : Ledger) (now : Ts.Timestamp)
    (clients : list string) (snapshot_date : Ts.Timestamp) : list GoldRow :=
  flat_map (client_rows df (is_current_month now snapshot_date) snapshot_date)
           clients.

(** ** Snapshot generator (lines 105-117) *)

Definition snapshots (df : Ledger) (now : Ts.Timestamp)
    : option (list Ts.Timestamp) :=
  match column_min (map Fecha df), column_max (map Fecha df) with
  | Some min_date, Some max_data_date =>
      let max_date := Ts.max max_data_date now in
      let start_date := Ts.replace_day1 min_date in
      let current_date := Ts.replace_day1 max_date in
      Some (date_range_MS start_date current_date)
  | _, _ => None
  end.

(** [gold_rows] after the loops (lines 118-285), given the snapshots. *)
Definition gold_rows (df : Ledger) (now : Ts.Timestamp)
    (date_range : list Ts.Timestamp) : list GoldRow :=
  let clients := unique (map Cliente df) in
  flat_map (snapshot_rows df now clients) date_range.

(** ** Variance pass (lines 289-314) *)

(** Order of [sort_values(by=['Cliente', 'Concepto', 'Fecha_Reporte'])]. *)
Definition row_leb (a b : GoldRow) : bool :=
  match String.compare (G_Cliente a) (G_Cliente b) with
  | Lt => true
  | Gt => false
  | Eq =>
      match String.compare (Concept_label (Concepto a))
                           (Concept_label (Concepto b)) with
      | Lt => true
      | Gt => false
      | Eq => Ts.leb (Fecha_Reporte a) (Fecha_Reporte b)
      end
  end.

(** A stable sort: a row is placed before the first row it is [<=] to. *)
Fixpoint insert_row (r : GoldRow) (l : list GoldRow) : list GoldRow :=
  match l with
  | [] => [r]
  | x :: t => if row_leb r x then r :: l else x :: insert_row r t
  end.

Definition sort_values (l : list GoldRow) : list GoldRow :=
  fold_right insert_row [] l.

(** A row of [df_prev]. *)
Record PrevRow : Set := mkPrevRow {
  P_Fecha_Reporte : Ts.Timestamp;
  P_Cliente : string;
  P_Concepto : Concept;
  Monto_Anterior : Z
}.

(** Lines 295-297. *)
Definition df_prev (gold : list GoldRow) : list PrevRow :=
  map (fun r => mkPrevRow (Ts.DateOffset_months 1 (Fecha_Reporte r))
                          (G_Cliente r) (Concepto r) (Monto r)) gold.

Definition on_key (r : GoldRow) (p : PrevRow) : bool :=
  Ts.eqb (Fecha_Reporte r) (P_Fecha_Reporte p)
  && String.eqb (G_Cliente r) (P_Cliente p)
  && Concept_eqb (Concepto r) (P_Concepto p).

(** [pd.merge(left, right, on=[...], how='left')]: every left row, in the
    order of [left], once per matching right row, and once with a missing
    [Monto_Anterior] when no right row matches. *)
Definition merge_left (left : list GoldRow) (right : list PrevRow)
    : list (GoldRow * option Z) :=
  flat_map (fun r =>
              match filter (on_key r) right with
              | [] => [(r, None)]
              | ms => map (fun p => (r, Some (Monto_Anterior p))) ms
              end) left.

(** [fillna(0)] *)
Definition fillna0 (x : option Z) : Z :=
  match x with Some v => v | None => 0 end.

(** A row of the final [df_gold]. *)
Record OutRow : Set := mkOutRow {
  gold : GoldRow;
  Variacion_Mes_Anterior : Z
}.

(** Lines 291-314. *)
Definition variance_pass (rows : list GoldRow) : list OutRow :=
  let sorted := sort_values rows in
  map (fun x => mkOutRow (fst x) (Monto (fst x) - fillna0 (snd x)))
      (merge_left sorted (df_prev sorted)).

(** ** Export (lines 316-343) *)

Inductive Cell : Set :=
| CStr (s : string)
| CNum (z : Z)
| CInt (n : nat)
| CBool (b : bool).

Definition digit (n : Z) : ascii := ascii_of_nat (48 + Z.to_nat (n mod 10)).

Definition pad2 (n : Z) : string :=
  String (digit (n / 10)) (String (digit n) EmptyString).

Definition pad4 (n : Z) : string :=
  String (digit (n / 1000)) (String (digit (n / 100)) (pad2 n)).

(** [strftime('%Y-%m-%d')] *)
Definition strftime (t : Ts.Timestamp) : string :=
  pad4 (Ts.year t) ++ "-" ++ pad2 (Ts.month t) ++ "-" ++ pad2 (Ts.day t).

Definition columns : list Cell :=
  [CStr "Fecha_Reporte"; CStr "Cliente"; CStr "Concepto"; CStr "Monto";
   CStr "Es_Mes_Actual"; CStr "Numero_Facturas"; CStr "Lista_Facturas";
   CStr "Variacion_Mes_Anterior"].

Definition export_row (r : OutRow) : list Cell :=
  let g := gold r in
  [CStr (strftime (Fecha_Reporte g)); CStr (G_Cliente g);
   CStr (Concept_label (Concepto g)); CNum (Monto g);
   CBool (Es_Mes_Actual g); CInt (Numero_Facturas g);
   CStr (Lista_Facturas g); CNum (Variacion_Mes_Anterior r)].

(** [data_to_write] (line 335). *)
Definition data_to_write (df_gold : list OutRow) : list (list Cell) :=
  columns :: map export_row df_gold.

(** The content of worksheet ['Consolidacion']; [None] when the spreadsheet
    has no such worksheet. *)
Definition Sink := option (list (list Cell)).

(** What a run logs as its result. *)
Inductive Outcome : Set :=
| Error_no_min_date
| Nothing_to_export
| Exported (rows : nat).

(** The final [df_gold] of a run that gets past line 111. *)
Definition gold_layer (df : Ledger) (now : Ts.Timestamp)
    : option (list OutRow) :=
  match snapshots df now with
  | None => None
  | Some date_range =>
      match gold_rows df now date_range with
      | [] => Some []
      | rows => Some (variance_pass rows)
      end
  end.

(** [main] from line 104 on: the cleaned ledger, the clock and the sink go
    in; the logged result and the sink come out.  The worksheet is cleared
    (or created) and then written from cell A1, so after an export it holds
    [data_to_write] and nothing else. *)
Definition main (df : Ledger) (now : Ts.Timestamp) (sink : Sink)
    : Outcome * Sink :=
  match gold_layer df now with
  | None => (Error_no_min_date, sink)
  | Some [] => (Nothing_to_export, sink)
  | Some df_gold =>
      (Exported (List.length df_gold), Some (data_to_write df_gold))
  end.

(** ** The scenarios of the specification *)

Module Scenario.

Definition acme (cobro : option Ts.Timestamp) (total : Z) : Invoice :=
  mkInvoice "Acme" "F-1" (Some (Ts.mkTs 2024 1 10)) None cobro total.

Definition summary (o : option (list OutRow))
    : list (Ts.Timestamp * Concept * Z * Z) :=
  match o with
  | None => []
  | Some l => map (fun r => (Fecha_Reporte (gold r), Concepto (gold r),
                             Monto (gold r), Variacion_Mes_Anterior r)) l
  end.

Example now_april :
  summary (gold_layer [acme None 100] (Ts.mkTs 2024 4 15))
  = [ (Ts.mkTs 2024 2 1, Deuda_0_3, 100, 100);
      (Ts.mkTs 2024 3 1, Deuda_0_3, 100, 0);
      (Ts.mkTs 2024 4 1, Deuda_0_3, 100, 0);
      (Ts.mkTs 2024 1 1, Facturacion_Mensual, 100, 100) ].
Proof. vm_compute. reflexivity. Qed.

End Scenario.

(** * Properties *)

(** ** The calendar *)

Section Calendar.

Local Ltac Zify.zify_post_hook ::= Z.to_euclidean_division_equations.

Lemma days_in_month_bounds (y m : Z) : 28 <= Ts.days_in_month y m <= 31.
Proof.
  unfold Ts.days_in_month.
  destruct (m =? 2); [destruct (Ts.is_leap y); lia|].
  destruct ((m =? 4) || (m =? 6) || (m =? 9) || (m =? 11)); lia.
Qed.

Lemma days_before_year_step (y : Z) :
  Ts.days_before_year (y + 1)
  = Ts.days_before_year y + 365 + (if Ts.is_leap y then 1 else 0).
Proof.
  unfold Ts.days_before_year, Ts.is_leap. cbv zeta.
  replace (y + 1 - 1) with y by lia.
  destruct (y mod 4 =? 0) eqn:E4; destruct (y mod 100 =? 0) eqn:E100;
    destruct (y mod 400 =? 0) eqn:E400; simpl; lia.
Qed.

Lemma days_before_year_mono (a b : Z) :
  a <= b -> Ts.days_before_year a + 365 * (b - a) <= Ts.days_before_year b.
Proof. unfold Ts.days_before_year. cbv zeta. intros. lia. Qed.

Lemma month_cases (m : Z) :
  1 <= m <= 12 ->
  m = 1 \/ m = 2 \/ m = 3 \/ m = 4 \/ m = 5 \/ m = 6 \/
  m = 7 \/ m = 8 \/ m = 9 \/ m = 10 \/ m = 11 \/ m = 12.
Proof. lia. Qed.

Local Ltac each_month H :=
  apply month_cases in H;
  repeat (destruct H as [H | H]; [subst | ]); [ .. | subst ].

(** Within a year the days before a month grow by the length of the month. *)
Lemma days_before_month_step (y m : Z) :
  1 <= m <= 11 ->
  Ts.days_before_month y (m + 1)
  = Ts.days_before_month y m + Ts.days_in_month y m.
Proof.
  intros H. assert (H' : 1 <= m <= 12) by lia.
  unfold Ts.days_before_month, Ts.days_in_month.
  each_month H'; destruct (Ts.is_leap y); simpl; lia.
Qed.

Lemma days_before_month_december (y : Z) :
  Ts.days_before_month y 12 + Ts.days_in_month y 12
  = 365 + (if Ts.is_leap y then 1 else 0).
Proof.
  unfold Ts.days_before_month, Ts.days_in_month.
  destruct (Ts.is_leap y); simpl; lia.
Qed.

Lemma days_before_month_mono (y m1 m2 : Z) :
  1 <= m1 <= 12 -> 1 <= m2 <= 12 -> m1 < m2 ->
  Ts.days_before_month y m1 + Ts.days_in_month y m1
  <= Ts.days_before_month y m2.
Proof.
  intros H1 H2 Hlt.
  unfold Ts.days_before_month, Ts.days_in_month.
  each_month H1; each_month H2; try lia;
    destruct (Ts.is_leap y); simpl; lia.
Qed.

Lemma month_index_month_start (n : Z) : Ts.month_index (Ts.month_start n) = n.
Proof.
  unfold Ts.month_index, Ts.month_start. cbn [Ts.year Ts.month Ts.day]. lia.
Qed.



Lemma month_start_inj (n1 n2 : Z) :
  Ts.month_start n1 = Ts.month_start n2 -> n1 = n2.
Proof.
  intros H. rewrite <- (month_index_month_start n1), H.
  apply month_index_month_start.
Qed.

(** On a month start, [DateOffset(months=k)] moves [k] month starts. *)
Lemma DateOffset_month_start (k n : Z) :
  Ts.DateOffset_months k (Ts.month_start n) = Ts.month_start (n + k).
Proof.
  unfold Ts.DateOffset_months. rewrite month_index_month_start.
  pose proof (days_in_month_bounds ((n + k) / 12) ((n + k) mod 12 + 1)).
  unfold Ts.month_start. cbn [Ts.year Ts.month Ts.day]. f_equal. lia.
Qed.

Lemma toordinal_month_start_step (n : Z) :
  Ts.toordinal (Ts.month_start (n + 1))
  = Ts.toordinal (Ts.month_start n)
    + Ts.days_in_month (n / 12) (n mod 12 + 1).
Proof.
  unfold Ts.toordinal, Ts.month_start. cbn [Ts.year Ts.month Ts.day].
  destruct (Z.eq_dec (n mod 12) 11) as [E | E].
  - replace ((n + 1) / 12) with (n / 12 + 1) by lia.
    replace ((n + 1) mod 12 + 1) with 1 by lia.
    rewrite E. simpl (11 + 1).
    rewrite days_before_year_step.
    pose proof (days_before_month_december (n / 12)).
    unfold Ts.days_before_month at 1. simpl. lia.
  - replace ((n + 1) / 12) with (n / 12) by lia.
    replace ((n + 1) mod 12 + 1) with ((n mod 12 + 1) + 1) by lia.
    rewrite days_before_month_step by lia. lia.
Qed.

Lemma toordinal_month_start_le (n : Z) (k : nat) :
  Ts.toordinal (Ts.month_start n) + 28 * Z.of_nat k
  <= Ts.toordinal (Ts.month_start (n + Z.of_nat k)).
Proof.
  induction k as [| k IH].
  - replace (n + Z.of_nat 0) with n by lia. lia.
  - replace (n + Z.of_nat (S k)) with (n + Z.of_nat k + 1) by lia.
    rewrite toordinal_month_start_step.
    pose proof (days_in_month_bounds ((n + Z.of_nat k) / 12)
                                     ((n + Z.of_nat k) mod 12 + 1)).
    lia.
Qed.

(** Month starts are at least 28 days apart. *)
Lemma toordinal_month_start_lt (n1 n2 : Z) :
  n1 < n2 ->
  Ts.toordinal (Ts.month_start n1) + 28
  <= Ts.toordinal (Ts.month_start n2).
Proof.
  intros H.
  pose proof (toordinal_month_start_le n1 (Z.to_nat (n2 - n1))) as L.
  replace (n1 + Z.of_nat (Z.to_nat (n2 - n1))) with n2 in L by lia.
  lia.
Qed.

(** On calendar dates the chronological order is the order of ordinals. *)
Lemma ltb_toordinal (a b : Ts.Timestamp) :
  Ts.valid a -> Ts.valid b ->
  Ts.ltb a b = true -> Ts.toordinal a < Ts.toordinal b.
Proof.
  destruct a as [ya ma da], b as [yb mb db].
  unfold Ts.valid. cbn [Ts.year Ts.month Ts.day].
  intros [Ma Da] [Mb Db] H. unfold Ts.ltb in H. unfold Ts.toordinal.
  cbn [Ts.year Ts.month Ts.day] in *.
  assert (C : ya < yb \/ (ya = yb /\ ma < mb)
              \/ (ya = yb /\ ma = mb /\ da < db)) by lia.
  destruct C as [Y | [[Y M] | [Y [M D]]]].
  - pose proof (days_before_year_mono (ya + 1) yb).
    rewrite days_before_year_step in *.
    assert (Ts.days_before_month ya ma + Ts.days_in_month ya ma
            <= 365 + (if Ts.is_leap ya then 1 else 0)).
    { destruct (Z.eq_dec ma 12) as [E | E].
      - rewrite E, days_before_month_december. lia.
      - pose proof (days_before_month_mono ya ma 12).
        pose proof (days_before_month_december ya).
        pose proof (days_in_month_bounds ya 12). lia. }
    assert (0 <= Ts.days_before_month yb mb).
    { unfold Ts.days_before_month. each_month Mb;
        destruct (Ts.is_leap yb); simpl; lia. }
    lia.
  - subst yb.
    pose proof (days_before_month_mono ya ma mb).
    lia.
  - subst. lia.
Qed.

Lemma toordinal_ltb (a b : Ts.Timestamp) :
  Ts.valid a -> Ts.valid b ->
  Ts.toordinal a < Ts.toordinal b -> Ts.ltb a b = true.
Proof.
  intros Va Vb H.
  destruct (Ts.ltb a b) eqn:E; [reflexivity|].
  destruct (Ts.ltb b a) eqn:E'.
  - apply ltb_toordinal in E'; auto. lia.
  - assert (a = b).
    { destruct a, b. unfold Ts.ltb in *. simpl in *. f_equal; lia. }
    subst. lia.
Qed.

End Calendar.

(** ** The 30.44-day month *)

(** The comparisons of [months_overdue] with 3, 6 and 12 are comparisons of
    the day count with 91.32, 182.64 and 365.28. *)
Lemma months_lt_3 (d : Z) : Qltb (months_of_days d) 3 = (d <=? 91).
Proof.
  unfold Qltb, Qle_bool, months_of_days, Qdiv, Qmult, Qinv, inject_Z.
  cbn [Qnum Qden]. simpl. lia.
Qed.

Lemma months_lt_6 (d : Z) : Qltb (months_of_days d) 6 = (d <=? 182).
Proof.
  unfold Qltb, Qle_bool, months_of_days, Qdiv, Qmult, Qinv, inject_Z.
  cbn [Qnum Qden]. simpl. lia.
Qed.

Lemma months_lt_12 (d : Z) : Qltb (months_of_days d) 12 = (d <=? 365).
Proof.
  unfold Qltb, Qle_bool, months_of_days, Qdiv, Qmult, Qinv, inject_Z.
  cbn [Qnum Qden]. simpl. lia.
Qed.

Lemma months_ge (d : Z) (q : Q) : Qgeb (months_of_days d) q = negb (Qltb (months_of_days d) q).
Proof. unfold Qgeb, Qltb. now rewrite negb_involutive. Qed.

Lemma Qltb_lt (x y : Q) : Qltb x y = true <-> (x < y)%Q.
Proof.
  unfold Qltb. rewrite negb_true_iff, <- not_true_iff_false, Qle_bool_iff.
  split; [apply Qnot_le_lt | apply Qlt_not_le].
Qed.

Lemma Qgeb_le (x y : Q) : Qgeb x y = true <-> (y <= x)%Q.
Proof. apply Qle_bool_iff. Qed.

(** ** What the accumulators hold after the loop *)

(** The accumulator pair of a debt concept. *)
Definition acc_sum (c : Concept) (a : Acc) : Z :=
  match c with
  | Facturacion_Mensual => 0
  | Deuda_0_3 => deuda_lt_3_sum a
  | Deuda_3_6 => deuda_3_6_sum a
  | Deuda_6_12 => deuda_6_12_sum a
  | Deuda_gt_12 => deuda_gt_12_sum a
  | Alerta_Paso_3 => crossed_3_months_sum a
  | Pagos_Deuda_Post_Inicio => paid_debt_post_start_sum a
  | Pagos_Alerta_Post_Inicio => paid_alert_post_start_sum a
  end.

Definition acc_list (c : Concept) (a : Acc) : list string :=
  match c with
  | Facturacion_Mensual => []
  | Deuda_0_3 => list_lt_3 a
  | Deuda_3_6 => list_3_6 a
  | Deuda_6_12 => list_6_12 a
  | Deuda_gt_12 => list_gt_12 a
  | Alerta_Paso_3 => list_crossed a
  | Pagos_Deuda_Post_Inicio => list_paid_post_start a
  | Pagos_Alerta_Post_Inicio => list_paid_alert a
  end.

(** [days_overdue] of a dated invoice at a snapshot. *)
Definition days_overdue (snapshot_date : Ts.Timestamp) (inv : Invoice)
    : option Z :=
  option_map (Ts.days_between snapshot_date) (Fecha inv).

Definition months_overdue (snapshot_date : Ts.Timestamp) (inv : Invoice)
    : option Q :=
  option_map months_of_days (days_overdue snapshot_date inv).

(** The test of a Boolean property of an optional value; false when the
    value is missing. *)
Definition holds {A : Type} (p : A -> bool) (x : option A) : bool :=
  match x with Some v => p v | None => false end.

(** Unpaid as of the snapshot, dated, and dated before the snapshot. *)
Definition overdue_unpaid (snapshot_date : Ts.Timestamp) (inv : Invoice)
    : bool :=
  is_unpaid snapshot_date inv
  && holds (fun d => 0 <? d) (days_overdue snapshot_date inv).

(** Under three months one calendar month before the snapshot, three months
    or more at the snapshot. *)
Definition crossed_3_months (snapshot_date : Ts.Timestamp) (inv : Invoice)
    : bool :=
  holds (fun m => Qltb m 3)
        (months_overdue (Ts.DateOffset_months (-1) snapshot_date) inv)
  && holds (fun m => Qgeb m 3) (months_overdue snapshot_date inv).

Definition has_payment (inv : Invoice) : bool :=
  match Fecha_de_cobro inv with Some _ => true | None => false end.

(** The invoices that one scan adds to the accumulators of concept [c]. *)
Definition contributes (snapshot_date : Ts.Timestamp) (c : Concept)
    (inv : Invoice) : bool :=
  let m := months_overdue snapshot_date inv in
  match c with
  | Facturacion_Mensual => false
  | Deuda_0_3 =>
      overdue_unpaid snapshot_date inv && holds (fun m => Qltb m 3) m
  | Deuda_3_6 =>
      overdue_unpaid snapshot_date inv
      && holds (fun m => Qgeb m 3 && Qltb m 6) m
  | Deuda_6_12 =>
      overdue_unpaid snapshot_date inv
      && holds (fun m => Qgeb m 6 && Qltb m 12) m
  | Deuda_gt_12 =>
      overdue_unpaid snapshot_date inv && holds (fun m => Qgeb m 12) m
  | Alerta_Paso_3 =>
      overdue_unpaid snapshot_date inv && crossed_3_months snapshot_date inv
  | Pagos_Deuda_Post_Inicio =>
      overdue_unpaid snapshot_date inv && has_payment inv
  | Pagos_Alerta_Post_Inicio =>
      overdue_unpaid snapshot_date inv && has_payment inv
      && crossed_3_months snapshot_date inv
  end.

Lemma scan_invoice_acc (S : Ts.Timestamp) (a : Acc) (inv : Invoice)
    (c : Concept) :
  acc_list c (scan_invoice S a inv)
  = acc_list c a ++ (if contributes S c inv then [Num inv] else [])
  /\ acc_sum c (scan_invoice S a inv)
     = acc_sum c a + (if contributes S c inv then Total inv else 0).
Proof.
  unfold scan_invoice, contributes, overdue_unpaid, crossed_3_months,
    months_overdue, days_overdue, has_payment, add_bucket.
  destruct (Fecha inv) as [d |]; cbn [option_map holds].
  2: { rewrite !andb_false_r.
       destruct c; cbn; rewrite ?app_nil_r; split; (reflexivity || lia). }
  destruct (is_unpaid S inv); cbn [andb].
  2: { destruct c; cbn; rewrite ?app_nil_r; split; (reflexivity || lia). }
  rewrite !months_ge, !months_lt_3, !months_lt_6, !months_lt_12.
  set (n := Ts.days_between S d).
  set (p := Ts.days_between (Ts.DateOffset_months (-1) S) d).
  destruct (0 <? n) eqn:E0; cbn [andb].
  2: { destruct c; cbn; rewrite ?app_nil_r; split; (reflexivity || lia). }
  destruct (n <=? 91) eqn:E1; destruct (n <=? 182) eqn:E2;
    destruct (n <=? 365) eqn:E3; try lia;
    destruct (p <=? 91) eqn:E4; destruct (Fecha_de_cobro inv);
    destruct c; cbn; rewrite ?app_nil_r; split; (reflexivity || lia).
Qed.

Lemma scan_fold (S : Ts.Timestamp) (c : Concept) (l : list Invoice) :
  forall a : Acc,
    acc_list c (fold_left (scan_invoice S) l a)
    = acc_list c a ++ map Num (filter (contributes S c) l)
    /\ acc_sum c (fold_left (scan_invoice S) l a)
       = acc_sum c a + sum_Z (map Total (filter (contributes S c) l)).
Proof.
  induction l as [| inv l IH]; intros a; cbn [fold_left filter].
  - cbn. rewrite app_nil_r. split; [reflexivity | lia].
  - destruct (IH (scan_invoice S a inv)) as [IL IS].
    destruct (scan_invoice_acc S a inv c) as [HL HS].
    rewrite IL, IS, HL, HS.
    destruct (contributes S c inv); cbn [map sum_Z fold_right].
    + rewrite <- app_assoc. split; [reflexivity | unfold sum_Z; lia].
    + rewrite app_nil_r. split; [reflexivity | lia].
Qed.

(** The invoices aggregated into the row of [(snapshot, client, concept)]. *)
Definition members (df : Ledger) (snapshot_date : Ts.Timestamp)
    (client : string) (c : Concept) : list Invoice :=
  match c with
  | Facturacion_Mensual => client_billing_df df snapshot_date client
  | _ => filter (contributes snapshot_date c)
                (client_invoices df snapshot_date client)
  end.

Definition amount (df : Ledger) (snapshot_date : Ts.Timestamp)
    (client : string) (c : Concept) : Z :=
  sum_Z (map Total (members df snapshot_date client c)).

(** The guard of the [append] of a concept. *)
Definition emitted (is_current : bool) (c : Concept) (amt : Z) : bool :=
  match c with
  | Pagos_Deuda_Post_Inicio | Pagos_Alerta_Post_Inicio =>
      is_current && (0 <? amt)
  | _ => 0 <? amt
  end.

Definition concept_row (df : Ledger) (is_current : bool)
    (snapshot_date : Ts.Timestamp) (client : string) (c : Concept)
    : list GoldRow :=
  append_if (emitted is_current c (amount df snapshot_date client c))
            snapshot_date client c (amount df snapshot_date client c)
            is_current (map Num (members df snapshot_date client c)).

(** The concepts in the order in which their rows are appended. *)
Definition concepts : list Concept :=
  [Facturacion_Mensual; Deuda_0_3; Deuda_3_6; Deuda_6_12; Deuda_gt_12;
   Alerta_Paso_3; Pagos_Deuda_Post_Inicio; Pagos_Alerta_Post_Inicio].

Lemma scan_members (df : Ledger) (S : Ts.Timestamp) (client : string)
    (c : Concept) :
  c <> Facturacion_Mensual ->
  acc_list c (scan df S client) = map Num (members df S client c)
  /\ acc_sum c (scan df S client) = amount df S client c.
Proof.
  intros Hc. unfold scan, amount.
  destruct (scan_fold S c (client_invoices df S client) Acc0) as [HL HS].
  rewrite HL, HS.
  destruct c; try congruence; cbn; split; reflexivity.
Qed.

Lemma client_rows_concepts (df : Ledger) (cur : bool) (S : Ts.Timestamp)
    (client : string) :
  client_rows df cur S client = flat_map (concept_row df cur S client) concepts.
Proof.
  unfold client_rows, concepts, concept_row. cbn [flat_map].
  rewrite app_nil_r.
  pose proof (scan_members df S client) as H.
  destruct (H Deuda_0_3 ltac:(discriminate)) as [L1 S1].
  destruct (H Deuda_3_6 ltac:(discriminate)) as [L2 S2].
  destruct (H Deuda_6_12 ltac:(discriminate)) as [L3 S3].
  destruct (H Deuda_gt_12 ltac:(discriminate)) as [L4 S4].
  destruct (H Alerta_Paso_3 ltac:(discriminate)) as [L5 S5].
  destruct (H Pagos_Deuda_Post_Inicio ltac:(discriminate)) as [L6 S6].
  destruct (H Pagos_Alerta_Post_Inicio ltac:(discriminate)) as [L7 S7].
  cbn [acc_list acc_sum] in *.
  rewrite L1, L2, L3, L4, L5, L6, L7, S1, S2, S3, S4, S5, S6, S7.
  reflexivity.
Qed.

(** ** Lists *)

Section ListFacts.

Context {A B K : Type}.

Lemma filter_filter (p q : A -> bool) (l : list A) :
  filter p (filter q l) = filter (fun x => q x && p x) l.
Proof.
  induction l as [| x l IH]; cbn; [reflexivity|].
  destruct (q x); cbn; [destruct (p x)|]; now rewrite IH.
Qed.

(** Rows built from distinct seeds, each tagged with its seed, have distinct
    keys as soon as the rows of one seed have. *)
Lemma NoDup_keys_flat_map (key : B -> K) (tag : K -> A) (f : A -> list B)
    (l : list A) :
  NoDup l ->
  (forall x, In x l -> NoDup (map key (f x))) ->
  (forall x b, In x l -> In b (f x) -> tag (key b) = x) ->
  NoDup (map key (flat_map f l)).
Proof.
  induction l as [| x l IH]; intros Hl Hf Ht; cbn; [constructor|].
  inversion Hl as [| ? ? Hx Hl']; subst.
  rewrite map_app.
  assert (Hrest : NoDup (map key (flat_map f l))).
  { apply IH; auto.
    - intros y Hy. apply Hf. now right.
    - intros y b Hy. apply Ht. now right. }
  assert (H1 : NoDup (map key (f x))) by (apply Hf; now left).
  revert H1.
  generalize (fun b (Hb : In b (f x)) => Ht x b (or_introl eq_refl) Hb).
  induction (f x) as [| b bs IHb]; intros Htag Hnd; cbn; [exact Hrest|].
  inversion Hnd as [| ? ? Hb Hnd']; subst.
  constructor.
  - rewrite in_app_iff. intros [Hin | Hin]; [now apply Hb|].
    apply in_map_iff in Hin. destruct Hin as [b' [Hk Hb']].
    apply in_flat_map in Hb'. destruct Hb' as [y [Hy Hby]].
    apply Hx.
    assert (E : tag (key b') = y) by (apply Ht; [now right | exact Hby]).
    rewrite Hk in E. rewrite (Htag b (or_introl eq_refl)) in E.
    now subst.
  - apply IHb; auto. intros b' Hb'. apply Htag. now right.
Qed.


(** In a list with distinct keys, a test that pins the key down selects at
    most one element. *)
Lemma filter_at_most_one (key : B -> K) (p : B -> bool) (l : list B) :
  NoDup (map key l) ->
  (forall a b, In a l -> In b l -> p a = true -> p b = true ->
               key a = key b) ->
  (List.length (filter p l) <= 1)%nat.
Proof.
  induction l as [| x l IH]; cbn; intros Hnd Hp; [lia|].
  inversion Hnd as [| ? ? Hx Hnd']; subst.
  assert (IH' : (List.length (filter p l) <= 1)%nat).
  { apply IH; [assumption|]. intros a b Ha Hb. apply Hp; now right. }
  destruct (p x) eqn:Px; [|exact IH'].
  destruct (filter p l) as [| y ys] eqn:F; cbn; [lia|].
  exfalso. apply Hx.
  assert (Hy : In y (filter p l)) by (rewrite F; now left).
  apply filter_In in Hy. destruct Hy as [Hy Py].
  assert (E : key x = key y) by (apply Hp; cbn; auto).
  rewrite E. now apply in_map.
Qed.

End ListFacts.

Lemma unique_In (l : list string) (x : string) : In x (unique l) <-> In x l.
Proof.
  induction l as [| y l IH]; cbn; [tauto|].
  rewrite filter_In, IH.
  destruct (String.eqb_spec y x) as [E | E]; cbn; intuition congruence.
Qed.

Lemma unique_NoDup (l : list string) : NoDup (unique l).
Proof.
  induction l as [| y l IH]; cbn; constructor.
  - rewrite filter_In. intros [_ H]. now rewrite String.eqb_refl in H.
  - now apply NoDup_filter.
Qed.

(** ** The rows of the aggregation loop *)

Definition key (r : GoldRow) : Ts.Timestamp * string * Concept :=
  (Fecha_Reporte r, G_Cliente r, Concepto r).

(** The dictionary appended for [(snapshot, client, concept)], when one is. *)
Definition the_row (df : Ledger) (now snapshot_date : Ts.Timestamp)
    (client : string) (c : Concept) : GoldRow :=
  mkGoldRow snapshot_date client c (amount df snapshot_date client c)
            (is_current_month now snapshot_date)
            (List.length (members df snapshot_date client c))
            (join (map Num (members df snapshot_date client c))).

Lemma concepts_all (c : Concept) : In c concepts.
Proof. destruct c; cbn; tauto. Qed.

Lemma concepts_NoDup : NoDup concepts.
Proof.
  unfold concepts.
  repeat (constructor; [cbn; intuition discriminate|]). constructor.
Qed.

Lemma members_In (df : Ledger) (S : Ts.Timestamp) (client : string)
    (c : Concept) (inv : Invoice) :
  In inv (members df S client c) -> In inv df /\ Cliente inv = client.
Proof.
  assert (H : forall p, In inv (filter (of_client client) (filter p df)) ->
                        In inv df /\ Cliente inv = client).
  { intros p H. apply filter_In in H. destruct H as [H E].
    apply filter_In in H. split; [tauto|].
    unfold of_client in E. now apply String.eqb_eq. }
  unfold members, client_billing_df, client_invoices.
  destruct c; [apply H | ..];
    intros Hin; apply filter_In in Hin; destruct Hin as [Hin _];
    exact (H _ Hin).
Qed.

Lemma emitted_positive (cur : bool) (c : Concept) (amt : Z) :
  emitted cur c amt = true -> 0 < amt.
Proof. destruct c, cur; cbn; lia. Qed.

Lemma amount_positive_client (df : Ledger) (S : Ts.Timestamp)
    (client : string) (c : Concept) :
  0 < amount df S client c -> In client (map Cliente df).
Proof.
  unfold amount. intros H.
  destruct (members df S client c) as [| inv l] eqn:E; [cbn in H; lia|].
  destruct (members_In df S client c inv) as [Hin Hc]; [rewrite E; now left|].
  rewrite <- Hc. now apply in_map.
Qed.

Lemma in_concept_row (df : Ledger) (now S : Ts.Timestamp) (client : string)
    (c : Concept) (r : GoldRow) :
  In r (concept_row df (is_current_month now S) S client c)
  <-> emitted (is_current_month now S) c (amount df S client c) = true
      /\ r = the_row df now S client c.
Proof.
  unfold concept_row, append_if, the_row. rewrite length_map.
  destruct (emitted _ _ _); cbn; intuition congruence.
Qed.

(** A row is in [gold_rows] exactly when it is the row of a snapshot, a
    client and a concept whose guard holds. *)
Lemma in_gold_rows (df : Ledger) (now : Ts.Timestamp)
    (dr : list Ts.Timestamp) (r : GoldRow) :
  In r (gold_rows df now dr)
  <-> exists S client c,
        In S dr
        /\ emitted (is_current_month now S) c (amount df S client c) = true
        /\ r = the_row df now S client c.
Proof.
  unfold gold_rows, snapshot_rows. rewrite in_flat_map. split.
  - intros [S [HS H]]. apply in_flat_map in H. destruct H as [client [Hc H]].
    rewrite client_rows_concepts in H. apply in_flat_map in H.
    destruct H as [c [_ H]]. apply in_concept_row in H.
    exists S, client, c. tauto.
  - intros [S [client [c [HS [He Hr]]]]]. exists S. split; [exact HS|].
    apply in_flat_map. exists client. split.
    + apply unique_In. apply (amount_positive_client df S client c).
      eapply emitted_positive; eauto.
    + rewrite client_rows_concepts. apply in_flat_map. exists c.
      split; [apply concepts_all|]. apply in_concept_row. tauto.
Qed.

Lemma key_the_row (df : Ledger) (now S : Ts.Timestamp) (client : string)
    (c : Concept) :
  key (the_row df now S client c) = (S, client, c).
Proof. reflexivity. Qed.

(** The aggregation loop appends at most one row per key. *)
Lemma gold_rows_keys_NoDup (df : Ledger) (now : Ts.Timestamp)
    (dr : list Ts.Timestamp) :
  NoDup dr -> NoDup (map key (gold_rows df now dr)).
Proof.
  intros Hdr. unfold gold_rows, snapshot_rows.
  apply (NoDup_keys_flat_map key (fun k => fst (fst k))); [exact Hdr | |].
  - intros S _.
    apply (NoDup_keys_flat_map key (fun k => snd (fst k)));
      [apply unique_NoDup | |].
    + intros client _. rewrite client_rows_concepts.
      apply (NoDup_keys_flat_map key (fun k => snd k));
        [apply concepts_NoDup | |].
      * intros c _. unfold concept_row, append_if.
        destruct (emitted _ _ _); cbn; repeat constructor. intros [].
      * intros c b _ Hb. apply in_concept_row in Hb.
        destruct Hb as [_ ->]. reflexivity.
    + intros client b _ Hb. rewrite client_rows_concepts in Hb.
      apply in_flat_map in Hb. destruct Hb as [c [_ Hb]].
      apply in_concept_row in Hb. destruct Hb as [_ ->]. reflexivity.
  - intros S b _ Hb. apply in_flat_map in Hb. destruct Hb as [client [_ Hb]].
    rewrite client_rows_concepts in Hb.
    apply in_flat_map in Hb. destruct Hb as [c [_ Hb]].
    apply in_concept_row in Hb. destruct Hb as [_ ->]. reflexivity.
Qed.

(** ** The snapshots *)

Lemma date_range_MS_In (s e S : Ts.Timestamp) :
  In S (date_range_MS s e) -> exists n, S = Ts.month_start n.
Proof.
  unfold date_range_MS. intros H. apply in_map_iff in H.
  destruct H as [i [H _]]. eauto.
Qed.

Lemma date_range_MS_NoDup (s e : Ts.Timestamp) : NoDup (date_range_MS s e).
Proof.
  unfold date_range_MS. apply Finite.Injective_map_NoDup; [|apply seq_NoDup].
  intros i j H. apply month_start_inj in H. lia.
Qed.

Lemma snapshots_month_start (df : Ledger) (now : Ts.Timestamp)
    (dr : list Ts.Timestamp) (S : Ts.Timestamp) :
  snapshots df now = Some dr -> In S dr -> exists n, S = Ts.month_start n.
Proof.
  unfold snapshots.
  destruct (column_min (map Fecha df)), (column_max (map Fecha df));
    try discriminate.
  intros [= <-]. apply date_range_MS_In.
Qed.

Lemma snapshots_NoDup (df : Ledger) (now : Ts.Timestamp)
    (dr : list Ts.Timestamp) :
  snapshots df now = Some dr -> NoDup dr.
Proof.
  unfold snapshots.
  destruct (column_min (map Fecha df)), (column_max (map Fecha df));
    try discriminate.
  intros [= <-]. apply date_range_MS_NoDup.
Qed.

(** ** The variance pass *)

Lemma Ts_eqb_eq (a b : Ts.Timestamp) : Ts.eqb a b = true <-> a = b.
Proof.
  destruct a, b. unfold Ts.eqb. cbn. split.
  - intros H. f_equal; lia.
  - intros [= -> -> ->]. lia.
Qed.

Lemma Concept_eqb_eq (a b : Concept) : Concept_eqb a b = true <-> a = b.
Proof. destruct a, b; cbn; split; congruence. Qed.

Lemma Concept_label_inj (a b : Concept) :
  Concept_label a = Concept_label b -> a = b.
Proof. destruct a, b; cbn; congruence. Qed.

Lemma insert_row_Permutation (r : GoldRow) (l : list GoldRow) :
  Permutation (insert_row r l) (r :: l).
Proof.
  induction l as [| x l IH]; cbn; [reflexivity|].
  destruct (row_leb r x); [reflexivity|].
  rewrite IH. apply perm_swap.
Qed.

(** Sorting reorders the rows and does nothing else. *)
Lemma sort_values_Permutation (l : list GoldRow) :
  Permutation (sort_values l) l.
Proof.
  induction l as [| x l IH]; cbn; [reflexivity|].
  rewrite insert_row_Permutation. now constructor.
Qed.

Lemma filter_map_comm {A B : Type} (p : B -> bool) (f : A -> B) (l : list A) :
  filter p (map f l) = map f (filter (fun x => p (f x)) l).
Proof.
  induction l as [| x l IH]; cbn; [reflexivity|].
  destruct (p (f x)); cbn; now rewrite IH.
Qed.

(** The amount joined to a left row: the first match, if any. *)
Definition Monto_Anterior_of (right : list PrevRow) (r : GoldRow) : option Z :=
  option_map Monto_Anterior (hd_error (filter (on_key r) right)).

(** When no left row has two matches, the left join is a lookup. *)
Lemma merge_left_lookup (left : list GoldRow) (right : list PrevRow) :
  (forall r, In r left -> (List.length (filter (on_key r) right) <= 1)%nat) ->
  merge_left left right = map (fun r => (r, Monto_Anterior_of right r)) left.
Proof.
  unfold merge_left, Monto_Anterior_of.
  induction left as [| r left IH]; intros H; [reflexivity|].
  change (flat_map ?F (r :: left)) with (F r ++ flat_map F left).
  rewrite IH by (intros; apply H; now right).
  specialize (H r (or_introl eq_refl)). cbn [map]. cbv beta.
  destruct (filter (on_key r) right) as [| p [| q ms]]; cbn in *;
    [reflexivity | reflexivity | lia].
Qed.

(** The row one calendar month before [r] for the same client and concept. *)
Definition prior_of (rows : list GoldRow) (r g : GoldRow) : Prop :=
  In g rows
  /\ G_Cliente g = G_Cliente r
  /\ Concepto g = Concepto r
  /\ Fecha_Reporte g = Ts.DateOffset_months (-1) (Fecha_Reporte r).

(** [Monto_Anterior] after [fillna(0)], for a row of the sorted frame. *)
Definition prior_amount (rows : list GoldRow) (r : GoldRow) : Z :=
  fillna0 (Monto_Anterior_of (df_prev (sort_values rows)) r).

Section Variance.

Variable rows : list GoldRow.
Hypothesis keys_NoDup : NoDup (map key rows).
Hypothesis month_starts :
  forall r, In r rows -> exists n, Fecha_Reporte r = Ts.month_start n.

Let sorted := sort_values rows.

Lemma sorted_In (r : GoldRow) : In r sorted <-> In r rows.
Proof.
  split; apply Permutation_in;
    [| symmetry]; apply sort_values_Permutation.
Qed.

Lemma sorted_keys_NoDup : NoDup (map key sorted).
Proof.
  apply (Permutation_NoDup (l := map key rows)); [|exact keys_NoDup].
  apply Permutation_map. symmetry. apply sort_values_Permutation.
Qed.

Lemma on_key_shift (r g : GoldRow) :
  In r rows -> In g rows ->
  on_key r (mkPrevRow (Ts.DateOffset_months 1 (Fecha_Reporte g))
                      (G_Cliente g) (Concepto g) (Monto g)) = true
  <-> prior_of rows r g.
Proof.
  intros Hr Hg. unfold on_key, prior_of. cbn.
  rewrite !andb_true_iff, Ts_eqb_eq, String.eqb_eq, Concept_eqb_eq.
  destruct (month_starts r Hr) as [n ->].
  destruct (month_starts g Hg) as [m ->].
  rewrite !DateOffset_month_start.
  split.
  - intros [[E ->] ->]. apply month_start_inj in E.
    repeat split; auto. f_equal. lia.
  - intros [_ [-> [-> E]]]. apply month_start_inj in E.
    repeat split; auto. f_equal. lia.
Qed.

(** At most one row of the shifted copy matches a row. *)
Lemma matches_at_most_one (r : GoldRow) :
  In r rows ->
  (List.length (filter (on_key r) (df_prev sorted)) <= 1)%nat.
Proof.
  intros Hr. unfold df_prev. rewrite filter_map_comm, length_map.
  apply (filter_at_most_one key); [apply sorted_keys_NoDup|].
  intros a b Ha Hb Pa Pb.
  apply sorted_In in Ha. apply sorted_In in Hb.
  apply on_key_shift in Pa; auto. apply on_key_shift in Pb; auto.
  destruct Pa as [_ [Ca [Ka Da]]], Pb as [_ [Cb [Kb Db]]].
  unfold key. congruence.
Qed.

Lemma variance_pass_lookup :
  variance_pass rows
  = map (fun r => mkOutRow r (Monto r - prior_amount rows r)) sorted.
Proof.
  unfold variance_pass. fold sorted.
  rewrite merge_left_lookup.
  - rewrite map_map. reflexivity.
  - intros r Hr. apply matches_at_most_one. now apply sorted_In.
Qed.

Lemma prior_amount_found (r g : GoldRow) :
  In r rows -> prior_of rows r g -> prior_amount rows r = Monto g.
Proof.
  intros Hr Hg. unfold prior_amount, Monto_Anterior_of. fold sorted.
  pose proof (matches_at_most_one r Hr) as L.
  assert (Hin : In (mkPrevRow (Ts.DateOffset_months 1 (Fecha_Reporte g))
                              (G_Cliente g) (Concepto g) (Monto g))
                   (filter (on_key r) (df_prev sorted))).
  { apply filter_In. split.
    - unfold df_prev. apply in_map_iff. exists g. split; [reflexivity|].
      apply sorted_In. apply Hg.
    - apply on_key_shift; auto. apply Hg. }
  destruct (filter (on_key r) (df_prev sorted)) as [| p [| q ms]];
    cbn in *; [contradiction | | lia].
  destruct Hin as [-> | []]. reflexivity.
Qed.

Lemma prior_amount_missing (r : GoldRow) :
  In r rows -> (forall g, ~ prior_of rows r g) -> prior_amount rows r = 0.
Proof.
  intros Hr Hno. unfold prior_amount, Monto_Anterior_of. fold sorted.
  destruct (filter (on_key r) (df_prev sorted)) as [| p ms] eqn:F;
    [reflexivity|].
  exfalso.
  assert (Hp : In p (filter (on_key r) (df_prev sorted)))
    by (rewrite F; now left).
  apply filter_In in Hp. destruct Hp as [Hp Pk].
  unfold df_prev in Hp. apply in_map_iff in Hp. destruct Hp as [g [<- Hg]].
  apply sorted_In in Hg.
  apply (Hno g). apply on_key_shift; auto.
Qed.

End Variance.

(** ** The whole run *)

Lemma gold_layer_eq (df : Ledger) (now : Ts.Timestamp)
    (dr : list Ts.Timestamp) :
  snapshots df now = Some dr ->
  gold_layer df now = Some (variance_pass (gold_rows df now dr)).
Proof.
  unfold gold_layer. intros ->.
  destruct (gold_rows df now dr); reflexivity.
Qed.

Lemma gold_layer_snapshots (df : Ledger) (now : Ts.Timestamp)
    (out : list OutRow) :
  gold_layer df now = Some out ->
  exists dr, snapshots df now = Some dr
             /\ out = variance_pass (gold_rows df now dr).
Proof.
  intros H. destruct (snapshots df now) as [dr |] eqn:E.
  - exists dr. split; [reflexivity|].
    rewrite (gold_layer_eq df now dr E) in H. congruence.
  - unfold gold_layer in H. rewrite E in H. discriminate.
Qed.

Lemma gold_rows_month_starts (df : Ledger) (now : Ts.Timestamp)
    (dr : list Ts.Timestamp) :
  snapshots df now = Some dr ->
  forall r, In r (gold_rows df now dr) ->
            exists n, Fecha_Reporte r = Ts.month_start n.
Proof.
  intros Hs r Hr. apply in_gold_rows in Hr.
  destruct Hr as [S [client [c [HS [_ ->]]]]].
  apply (snapshots_month_start df now dr S Hs HS).
Qed.

(** The final frame: the sorted rows, each with its variance. *)
Lemma gold_layer_rows (df : Ledger) (now : Ts.Timestamp)
    (dr : list Ts.Timestamp) (out : list OutRow) :
  snapshots df now = Some dr ->
  gold_layer df now = Some out ->
  out = map (fun r => mkOutRow r (Monto r
                                  - prior_amount (gold_rows df now dr) r))
            (sort_values (gold_rows df now dr)).
Proof.
  intros Hs Ho. rewrite (gold_layer_eq df now dr Hs) in Ho.
  injection Ho as <-.
  apply variance_pass_lookup.
  - apply gold_rows_keys_NoDup. apply (snapshots_NoDup df now dr Hs).
  - apply (gold_rows_month_starts df now dr Hs).
Qed.

Lemma gold_layer_In (df : Ledger) (now : Ts.Timestamp)
    (dr : list Ts.Timestamp) (out : list OutRow) (o : OutRow) :
  snapshots df now = Some dr ->
  gold_layer df now = Some out ->
  In o out
  <-> In (gold o) (gold_rows df now dr)
      /\ Variacion_Mes_Anterior o
         = Monto (gold o) - prior_amount (gold_rows df now dr) (gold o).
Proof.
  intros Hs Ho. rewrite (gold_layer_rows df now dr out Hs Ho).
  rewrite in_map_iff. split.
  - intros [r [<- Hr]]. cbn. split; [|reflexivity].
    apply (Permutation_in _ (sort_values_Permutation _) Hr).
  - intros [Hr Hv]. exists (gold o). split.
    + destruct o. cbn in *. now rewrite Hv.
    + apply (Permutation_in _ (Permutation_sym (sort_values_Permutation _)) Hr).
Qed.

Lemma gold_layer_gold (df : Ledger) (now : Ts.Timestamp)
    (dr : list Ts.Timestamp) (out : list OutRow) :
  snapshots df now = Some dr ->
  gold_layer df now = Some out ->
  map gold out = sort_values (gold_rows df now dr).
Proof.
  intros Hs Ho. rewrite (gold_layer_rows df now dr out Hs Ho).
  rewrite map_map. cbn. apply map_id.
Qed.

(** The row of a key in the final frame, and when there is one. *)
Lemma gold_layer_key (df : Ledger) (now : Ts.Timestamp)
    (dr : list Ts.Timestamp) (out : list OutRow) (o : OutRow)
    (S : Ts.Timestamp) (client : string) (c : Concept) :
  snapshots df now = Some dr ->
  gold_layer df now = Some out ->
  In o out -> key (gold o) = (S, client, c) ->
  In S dr
  /\ emitted (is_current_month now S) c (amount df S client c) = true
  /\ gold o = the_row df now S client c.
Proof.
  intros Hs Ho Hin Hk.
  apply (gold_layer_In df now dr out o Hs Ho) in Hin.
  destruct Hin as [Hin _]. apply in_gold_rows in Hin.
  destruct Hin as [S' [client' [c' [HS [He Hr]]]]].
  rewrite Hr, key_the_row in Hk. injection Hk as -> -> ->. tauto.
Qed.



Lemma gold_layer_gold_In (df : Ledger) (now : Ts.Timestamp)
    (dr : list Ts.Timestamp) (out : list OutRow) (g : GoldRow) :
  snapshots df now = Some dr ->
  gold_layer df now = Some out ->
  In g (map gold out) <-> In g (gold_rows df now dr).
Proof.
  intros Hs Ho. rewrite (gold_layer_gold df now dr out Hs Ho).
  split; apply Permutation_in; [| symmetry]; apply sort_values_Permutation.
Qed.

(** * The claims *)

Module Ledgers.

(** One unpaid invoice of 100.00 dated 2024-01-10. *)
Definition acme : Ledger :=
  [mkInvoice "Acme" "F-1" (Some (Ts.mkTs 2024 1 10)) None None 10000].

(** The same invoice with an amount that did not parse (cleaned to 0). *)
Definition acme_zero : Ledger :=
  [mkInvoice "Acme" "F-1" (Some (Ts.mkTs 2024 1 10)) None None 0].

(** An invoice dated on a month start. *)
Definition first_of_month : Invoice :=
  mkInvoice "Acme" "F-2" (Some (Ts.mkTs 2024 2 1)) None None 10000.

(** Two clients; Bolt's credit note outweighs its invoice of the month. *)
Definition two_clients : Ledger :=
  [mkInvoice "Acme" "F-1" (Some (Ts.mkTs 2024 1 10)) None None 10000;
   mkInvoice "Bolt" "F-2" (Some (Ts.mkTs 2024 1 12)) None
             (Some (Ts.mkTs 2024 1 20)) 5000;
   mkInvoice "Acme" "F-3" (Some (Ts.mkTs 2024 1 25)) None
             (Some (Ts.mkTs 2024 6 3)) 2550;
   mkInvoice "Bolt" "N-4" (Some (Ts.mkTs 2024 1 28)) None None (-7000)].

(** A ledger whose dates did not parse. *)
Definition undated : Ledger :=
  [mkInvoice "Acme" "F-1" None None None 10000;
   mkInvoice "Bolt" "F-2" None None (Some (Ts.mkTs 2024 1 20)) 5000].

Definition august : Ts.Timestamp := Ts.mkTs 2024 8 15.

End Ledgers.



(** C8. When no invoice of the ledger has a date, the run stops at the
    check of [min_date]: there are no snapshots, no row is computed, and
    the sink is left as it was. *)
Theorem C8_no_valid_date_aborts (df : Ledger) (now : Ts.Timestamp)
    (sink : Sink) :
  (forall inv, In inv df -> Fecha inv = None) ->
  snapshots df now = None
  /\ gold_layer df now = None
  /\ main df now sink = (Error_no_min_date, sink).
Proof.
  intros H.
  assert (E : column_min (map Fecha df) = None).
  { induction df as [| inv df IH]; cbn; [reflexivity|].
    rewrite (H inv (or_introl eq_refl)). apply IH.
    intros i Hi. apply H. now right. }
  assert (Es : snapshots df now = None) by (unfold snapshots; now rewrite E).
  unfold main, gold_layer. rewrite Es. auto.
Qed.

Lemma C8_witness :
  main Ledgers.undated Ledgers.august (Some [[CStr "stale"]])
  = (Error_no_min_date, Some [[CStr "stale"]]).
Proof.
  apply (C8_no_valid_date_aborts Ledgers.undated Ledgers.august
           (Some [[CStr "stale"]])).
  intros inv [<- | [<- | []]]; reflexivity.
Defined.

(** C10. [(Fecha_Reporte, Cliente, Concepto)] is a key of the rows of the
    aggregation loop and of the final frame.  In the left join every row
    matches at most one row of the month-shifted copy, and the join returns
    the sorted rows, none added and none removed. *)
Theorem C10_key_unique_join_preserves_rows (df : Ledger)
    (now : Ts.Timestamp) (dr : list Ts.Timestamp) (out : list OutRow) :
  snapshots df now = Some dr ->
  gold_layer df now = Some out ->
  let rows := gold_rows df now dr in
  let sorted := sort_values rows in
  NoDup (map key rows)
  /\ (forall r, In r sorted ->
        (List.length (filter (on_key r) (df_prev sorted)) <= 1)%nat)
  /\ map fst (merge_left sorted (df_prev sorted)) = sorted
  /\ map gold out = sorted
  /\ Permutation (map gold out) rows
  /\ NoDup (map (fun o => key (gold o)) out).
Proof.
  intros Hs Ho rows sorted.
  assert (Hnd : NoDup (map key rows))
    by (apply gold_rows_keys_NoDup, (snapshots_NoDup df now dr Hs)).
  pose proof (gold_rows_month_starts df now dr Hs) as Hms.
  assert (H1 : forall r, In r sorted ->
                 (List.length (filter (on_key r) (df_prev sorted)) <= 1)%nat).
  { intros r Hr. apply matches_at_most_one; auto.
    now apply sorted_In. }
  assert (Hg : map gold out = sorted) by apply (gold_layer_gold _ _ _ _ Hs Ho).
  split; [exact Hnd|]. split; [exact H1|]. split; [|split; [exact Hg|split]].
  - rewrite merge_left_lookup by exact H1.
    rewrite map_map. cbn. apply map_id.
  - rewrite Hg. apply sort_values_Permutation.
  - rewrite <- (map_map gold key), Hg.
    apply (Permutation_NoDup (l := map key rows)); [|exact Hnd].
    apply Permutation_map. symmetry. apply sort_values_Permutation.
Qed.

Lemma C10_witness :
  let dr := date_range_MS (Ts.mkTs 2024 1 1) (Ts.mkTs 2024 8 1) in
  let rows := gold_rows Ledgers.two_clients Ledgers.august dr in
  snapshots Ledgers.two_clients Ledgers.august = Some dr
  /\ gold_layer Ledgers.two_clients Ledgers.august
     = Some (variance_pass rows)
  /\ NoDup (map key rows)
  /\ List.length (variance_pass rows) = List.length rows.
Proof.
  cbv zeta.
  assert (Hs : snapshots Ledgers.two_clients Ledgers.august
               = Some (date_range_MS (Ts.mkTs 2024 1 1) (Ts.mkTs 2024 8 1)))
    by reflexivity.
  assert (Ho : gold_layer Ledgers.two_clients Ledgers.august
               = Some (variance_pass
                         (gold_rows Ledgers.two_clients Ledgers.august
                            (date_range_MS (Ts.mkTs 2024 1 1)
                                           (Ts.mkTs 2024 8 1)))))
    by (vm_compute; reflexivity).
  destruct (C10_key_unique_join_preserves_rows _ _ _ _ Hs Ho)
    as [K [_ [_ [_ [P _]]]]].
  split; [exact Hs|]. split; [exact Ho|]. split; [exact K|].
  rewrite <- (length_map gold). apply (Permutation_length P).
Defined.

Lemma prior_of_frame (df : Ledger) (now : Ts.Timestamp)
    (dr : list Ts.Timestamp) (out : list OutRow) (r g : GoldRow) :
  snapshots df now = Some dr ->
  gold_layer df now = Some out ->
  prior_of (map gold out) r g <-> prior_of (gold_rows df now dr) r g.
Proof.
  intros Hs Ho. unfold prior_of.
  rewrite (gold_layer_gold_In df now dr out g Hs Ho). tauto.
Qed.

(** C4. Every row of the aggregation loop is a row of the final frame, and
    the variance of a row of the final frame is its amount minus the amount
    of the row of the same client and concept dated one calendar month
    earlier: its own amount when there is no such row, and zero when that
    row has the same amount. *)
Theorem C4_variance (df : Ledger) (now : Ts.Timestamp)
    (dr : list Ts.Timestamp) (out : list OutRow) :
  snapshots df now = Some dr ->
  gold_layer df now = Some out ->
  (forall r, In r (gold_rows df now dr) -> exists o, In o out /\ gold o = r)
  /\ (forall o, In o out ->
        (forall g, prior_of (map gold out) (gold o) g ->
                   Variacion_Mes_Anterior o = Monto (gold o) - Monto g)
        /\ ((forall g, ~ prior_of (map gold out) (gold o) g) ->
            Variacion_Mes_Anterior o = Monto (gold o))
        /\ (forall g, prior_of (map gold out) (gold o) g ->
                      Monto g = Monto (gold o) ->
                      Variacion_Mes_Anterior o = 0)).
Proof.
  intros Hs Ho.
  assert (Hnd : NoDup (map key (gold_rows df now dr)))
    by (apply gold_rows_keys_NoDup, (snapshots_NoDup df now dr Hs)).
  pose proof (gold_rows_month_starts df now dr Hs) as Hms.
  split.
  - intros r Hr.
    apply (gold_layer_gold_In df now dr out r Hs Ho) in Hr.
    apply in_map_iff in Hr. destruct Hr as [o [E Hin]]. eauto.
  - intros o Hin.
    apply (gold_layer_In df now dr out o Hs Ho) in Hin.
    destruct Hin as [Hr Hv].
    assert (F : forall g, prior_of (map gold out) (gold o) g ->
                  Variacion_Mes_Anterior o = Monto (gold o) - Monto g).
    { intros g Hg. apply (prior_of_frame df now dr out _ _ Hs Ho) in Hg.
      rewrite Hv.
      now rewrite (prior_amount_found _ Hnd Hms (gold o) g Hr Hg). }
    split; [exact F|]. split.
    + intros Hno. rewrite Hv, prior_amount_missing; auto; [lia|].
      intros g Hg. apply (Hno g).
      now apply (prior_of_frame df now dr out _ _ Hs Ho).
    + intros g Hg E. rewrite (F g Hg). lia.
Qed.

Lemma C4_witness :
  let dr := date_range_MS (Ts.mkTs 2024 1 1) (Ts.mkTs 2024 8 1) in
  let out := variance_pass (gold_rows Ledgers.acme Ledgers.august dr) in
  let march := mkGoldRow (Ts.mkTs 2024 3 1) "Acme" Deuda_0_3 10000 false 1
                         "F-1" in
  let february := mkGoldRow (Ts.mkTs 2024 2 1) "Acme" Deuda_0_3 10000 false 1
                            "F-1" in
  snapshots Ledgers.acme Ledgers.august = Some dr
  /\ gold_layer Ledgers.acme Ledgers.august = Some out
  /\ In (mkOutRow march 0) out
  /\ prior_of (map gold out) march february
  /\ Variacion_Mes_Anterior (mkOutRow march 0) = Monto march - Monto february.
Proof.
  cbv zeta.
  assert (Hs : snapshots Ledgers.acme Ledgers.august
               = Some (date_range_MS (Ts.mkTs 2024 1 1) (Ts.mkTs 2024 8 1)))
    by reflexivity.
  assert (Ho : gold_layer Ledgers.acme Ledgers.august
               = Some (variance_pass
                         (gold_rows Ledgers.acme Ledgers.august
                            (date_range_MS (Ts.mkTs 2024 1 1)
                                           (Ts.mkTs 2024 8 1)))))
    by (vm_compute; reflexivity).
  assert (Hin : In (mkOutRow (mkGoldRow (Ts.mkTs 2024 3 1) "Acme" Deuda_0_3
                                        10000 false 1 "F-1") 0)
                   (variance_pass
                      (gold_rows Ledgers.acme Ledgers.august
                         (date_range_MS (Ts.mkTs 2024 1 1)
                                        (Ts.mkTs 2024 8 1)))))
    by (vm_compute; right; right; left; reflexivity).
  assert (Hp : prior_of
                 (map gold
                    (variance_pass
                       (gold_rows Ledgers.acme Ledgers.august
                          (date_range_MS (Ts.mkTs 2024 1 1)
                                         (Ts.mkTs 2024 8 1)))))
                 (mkGoldRow (Ts.mkTs 2024 3 1) "Acme" Deuda_0_3 10000 false 1
                            "F-1")
                 (mkGoldRow (Ts.mkTs 2024 2 1) "Acme" Deuda_0_3 10000 false 1
                            "F-1")).
  { split; [vm_compute; right; left; reflexivity|].
    repeat split; reflexivity. }
  split; [exact Hs|]. split; [exact Ho|]. split; [exact Hin|].
  split; [exact Hp|].
  exact (proj1 (proj2 (C4_variance _ _ _ _ Hs Ho) _ Hin) _ Hp).
Defined.




(** ** What one pass of the loop body does to an accumulator pair *)

Definition aging_buckets : list Concept :=
  [Deuda_0_3; Deuda_3_6; Deuda_6_12; Deuda_gt_12].

(** The invoice was added to the sum and to the list of concept [c]. *)
Definition credited (c : Concept) (a a' : Acc) (inv : Invoice) : Prop :=
  acc_list c a' = acc_list c a ++ [Num inv]
  /\ acc_sum c a' = acc_sum c a + Total inv.

Definition untouched (c : Concept) (a a' : Acc) : Prop :=
  acc_list c a' = acc_list c a /\ acc_sum c a' = acc_sum c a.

(** The range of overdue months of an aging bucket. *)
Definition bucket_range (c : Concept) (m : Q) : Prop :=
  match c with
  | Deuda_0_3 => (m < 3)%Q
  | Deuda_3_6 => (3 <= m)%Q /\ (m < 6)%Q
  | Deuda_6_12 => (6 <= m)%Q /\ (m < 12)%Q
  | Deuda_gt_12 => (12 <= m)%Q
  | _ => False
  end.

Lemma credited_iff (S : Ts.Timestamp) (a : Acc) (inv : Invoice) (c : Concept) :
  credited c a (scan_invoice S a inv) inv <-> contributes S c inv = true.
Proof.
  unfold credited. destruct (scan_invoice_acc S a inv c) as [HL HS].
  rewrite HL, HS. destruct (contributes S c inv).
  - split; [reflexivity | split; reflexivity].
  - split; [|discriminate]. intros [E _]. exfalso.
    apply (f_equal (@List.length string)) in E.
    rewrite !length_app in E. cbn in E. lia.
Qed.

Lemma untouched_iff (S : Ts.Timestamp) (a : Acc) (inv : Invoice) (c : Concept) :
  untouched c a (scan_invoice S a inv) <-> contributes S c inv = false.
Proof.
  unfold untouched. destruct (scan_invoice_acc S a inv c) as [HL HS].
  rewrite HL, HS. destruct (contributes S c inv).
  - split; [|discriminate]. intros [E _]. exfalso.
    apply (f_equal (@List.length string)) in E.
    rewrite !length_app in E. cbn in E. lia.
  - rewrite app_nil_r. split; [reflexivity | split; [reflexivity | lia]].
Qed.

Lemma months_lt_3_iff (n : Z) : (months_of_days n < 3)%Q <-> n <= 91.
Proof. rewrite <- Qltb_lt, months_lt_3. lia. Qed.

Lemma months_lt_6_iff (n : Z) : (months_of_days n < 6)%Q <-> n <= 182.
Proof. rewrite <- Qltb_lt, months_lt_6. lia. Qed.

Lemma months_lt_12_iff (n : Z) : (months_of_days n < 12)%Q <-> n <= 365.
Proof. rewrite <- Qltb_lt, months_lt_12. lia. Qed.

Lemma months_ge_3_iff (n : Z) : (3 <= months_of_days n)%Q <-> 92 <= n.
Proof. rewrite <- Qgeb_le, months_ge, months_lt_3. lia. Qed.

Lemma months_ge_6_iff (n : Z) : (6 <= months_of_days n)%Q <-> 183 <= n.
Proof. rewrite <- Qgeb_le, months_ge, months_lt_6. lia. Qed.

Lemma months_ge_12_iff (n : Z) : (12 <= months_of_days n)%Q <-> 366 <= n.
Proof. rewrite <- Qgeb_le, months_ge, months_lt_12. lia. Qed.

(** The bucket test of an invoice that is unpaid and dated before the
    snapshot, on the day count. *)
Lemma contributes_bucket (S : Ts.Timestamp) (inv : Invoice) (d : Ts.Timestamp)
    (c : Concept) :
  Fecha inv = Some d -> is_unpaid S inv = true ->
  0 < Ts.days_between S d ->
  In c aging_buckets ->
  (contributes S c inv = true
   <-> bucket_range c (months_of_days (Ts.days_between S d))).
Proof.
  intros Hd Hu Hn Hc.
  unfold contributes, overdue_unpaid, months_overdue, days_overdue.
  rewrite Hd, Hu. cbn [option_map holds andb].
  set (n := Ts.days_between S d) in *.
  replace (0 <? n) with true by lia. cbn [andb].
  destruct Hc as [<- | [<- | [<- | [<- | []]]]]; cbn [bucket_range];
    rewrite ?andb_true_iff, ?Qltb_lt, ?Qgeb_le; tauto.
Qed.

Lemma bucket_range_exclusive (n : Z) (c c' : Concept) :
  bucket_range c (months_of_days n) -> bucket_range c' (months_of_days n) ->
  c = c'.
Proof.
  destruct c, c'; cbn; try tauto;
    rewrite ?months_lt_3_iff, ?months_lt_6_iff, ?months_lt_12_iff,
            ?months_ge_3_iff, ?months_ge_6_iff, ?months_ge_12_iff; lia.
Qed.

Lemma bucket_range_exhaustive (n : Z) :
  exists c, In c aging_buckets /\ bucket_range c (months_of_days n).
Proof.
  destruct (Z_le_gt_dec n 91); [exists Deuda_0_3|
  destruct (Z_le_gt_dec n 182); [exists Deuda_3_6|
  destruct (Z_le_gt_dec n 365); [exists Deuda_6_12|exists Deuda_gt_12]]];
    (split; [cbn; tauto|]); cbn;
    rewrite ?months_lt_3_iff, ?months_lt_6_iff, ?months_lt_12_iff,
            ?months_ge_3_iff, ?months_ge_6_iff, ?months_ge_12_iff; lia.
Qed.

(** An invoice dated before a snapshot is among the invoices the loop of
    the invoice's client scans. *)
Lemma overdue_in_client_invoices (df : Ledger) (S d : Ts.Timestamp)
    (inv : Invoice) :
  In inv df -> Fecha inv = Some d -> Ts.valid d -> Ts.valid S ->
  0 < Ts.days_between S d ->
  In inv (client_invoices df S (Cliente inv)).
Proof.
  intros Hin Hd Vd VS Hn. unfold client_invoices.
  apply filter_In. split.
  - apply filter_In. split; [exact Hin|].
    unfold dated_up_to. rewrite Hd. unfold Ts.leb.
    rewrite (toordinal_ltb d S Vd VS); [reflexivity|].
    unfold Ts.days_between in Hn. lia.
  - unfold of_client. apply String.eqb_refl.
Qed.

(** C1 (amended). One pass of the loop body credits an invoice to at most
    one of the four aging buckets.  An invoice that is unpaid as of the
    snapshot and dated strictly before it ([days_overdue > 0]) is credited
    to exactly one: the bucket whose range holds its overdue months, and it
    is scanned by the loop of its client. *)
Theorem C1_aging_buckets_partition (S : Ts.Timestamp) (a : Acc)
    (inv : Invoice) :
  (forall c c', In c aging_buckets -> In c' aging_buckets ->
                credited c a (scan_invoice S a inv) inv ->
                credited c' a (scan_invoice S a inv) inv -> c = c')
  /\ (forall d, Fecha inv = Some d -> is_unpaid S inv = true ->
                0 < Ts.days_between S d ->
        let m := months_of_days (Ts.days_between S d) in
        (exists c, In c aging_buckets /\ bucket_range c m
                   /\ credited c a (scan_invoice S a inv) inv
                   /\ forall c', In c' aging_buckets -> c' <> c ->
                                 untouched c' a (scan_invoice S a inv)
                                 /\ ~ bucket_range c' m)
        /\ (forall df, In inv df -> Ts.valid d -> Ts.valid S ->
                       In inv (client_invoices df S (Cliente inv)))).
Proof.
  split.
  - intros c c' Hc Hc' H H'.
    apply credited_iff in H. apply credited_iff in H'.
    destruct (Fecha inv) as [d |] eqn:Hd.
    2: { unfold contributes, overdue_unpaid, days_overdue in H.
         rewrite Hd in H. cbn in H. rewrite andb_false_r in H.
         destruct c; discriminate. }
    assert (Ho : overdue_unpaid S inv = true).
    { unfold contributes in H. destruct c;
        rewrite ?andb_true_iff in H; try tauto. discriminate. }
    unfold overdue_unpaid, days_overdue in Ho. rewrite Hd in Ho. cbn in Ho.
    apply andb_true_iff in Ho. destruct Ho as [Hu Hn].
    apply (bucket_range_exclusive (Ts.days_between S d));
      apply (contributes_bucket S inv d); auto; lia.
  - intros d Hd Hu Hn m. split.
    + destruct (bucket_range_exhaustive (Ts.days_between S d))
        as [c [Hc Hr]].
      exists c. split; [exact Hc|]. split; [exact Hr|]. split.
      * apply credited_iff. now apply (contributes_bucket S inv d).
      * intros c' Hc' Hne.
        assert (Hn' : ~ bucket_range c' m).
        { intros Hr'. apply Hne.
          apply (bucket_range_exclusive (Ts.days_between S d)); auto. }
        split; [|exact Hn'].
        apply untouched_iff. apply not_true_is_false. intros Hc2.
        apply Hn'. now apply (contributes_bucket S inv d).
    + intros df Hin Vd VS.
      apply (overdue_in_client_invoices df S d); auto.
Qed.

Lemma C1_witness :
  let S := Ts.mkTs 2024 5 1 in
  let d := Ts.mkTs 2024 1 10 in
  let inv := mkInvoice "Acme" "F-1" (Some d) None None 10000 in
  Fecha inv = Some d
  /\ is_unpaid S inv = true
  /\ 0 < Ts.days_between S d
  /\ exists c, In c aging_buckets
               /\ bucket_range c (months_of_days (Ts.days_between S d))
               /\ credited c Acc0 (scan_invoice S Acc0 inv) inv.
Proof.
  cbv zeta.
  split; [reflexivity|]. split; [reflexivity|]. split; [reflexivity|].
  destruct (proj1 (proj2 (C1_aging_buckets_partition
                            (Ts.mkTs 2024 5 1) Acc0
                            (mkInvoice "Acme" "F-1" (Some (Ts.mkTs 2024 1 10))
                                       None None 10000))
                         (Ts.mkTs 2024 1 10) eq_refl eq_refl eq_refl))
    as [c [Hc [Hr [Hcr _]]]].
  exists c. split; [exact Hc|]. split; [exact Hr | exact Hcr].
Defined.

(** C1 as stated fails for an invoice dated on the snapshot itself: it is
    unpaid, its overdue months are 0 (in the range of 'Deuda 0-3 Meses'),
    and the loop body credits it to none of the four buckets. *)
Lemma C1_counterexample :
  let S := Ts.mkTs 2024 2 1 in
  let inv := Ledgers.first_of_month in
  is_unpaid S inv = true
  /\ Fecha inv = Some S
  /\ months_overdue S inv = Some (months_of_days 0)
  /\ bucket_range Deuda_0_3 (months_of_days 0)
  /\ (forall c, In c aging_buckets ->
                ~ credited c Acc0 (scan_invoice S Acc0 inv) inv)
  /\ client_rows [inv] true S "Acme"
     = [mkGoldRow S "Acme" Facturacion_Mensual 10000 true 1 "F-2"].
Proof.
  cbv zeta.
  split; [reflexivity|]. split; [reflexivity|]. split; [reflexivity|].
  split; [apply months_lt_3_iff; lia|]. split; [|reflexivity].
  intros c Hc H. apply credited_iff in H.
  destruct Hc as [<- | [<- | [<- | [<- | []]]]]; vm_compute in H;
    discriminate.
Qed.

(** ** The crossing alert *)


Lemma crossed_days (S : Ts.Timestamp) (inv : Invoice) :
  crossed_3_months S inv = true
  <-> exists d, Fecha inv = Some d
                /\ Ts.days_between (Ts.DateOffset_months (-1) S) d <= 91
                /\ 92 <= Ts.days_between S d.
Proof.
  unfold crossed_3_months, months_overdue, days_overdue.
  destruct (Fecha inv) as [d |]; cbn [option_map holds].
  - rewrite andb_true_iff, Qltb_lt, Qgeb_le, months_lt_3_iff, months_ge_3_iff.
    split.
    + intros H. exists d. tauto.
    + intros [d' [[= <-] H]]. exact H.
  - cbn. split; [discriminate | intros [d [[=] _]]].
Qed.

Lemma toordinal_month_start_mono (n1 n2 : Z) :
  n1 <= n2 ->
  Ts.toordinal (Ts.month_start n1) <= Ts.toordinal (Ts.month_start n2).
Proof.
  intros H. destruct (Z.eq_dec n1 n2) as [-> | Hne]; [lia|].
  pose proof (toordinal_month_start_lt n1 n2). lia.
Qed.





(** ** Payments after the snapshot *)

Lemma overdue_unpaid_iff (S : Ts.Timestamp) (inv : Invoice) :
  overdue_unpaid S inv = true
  <-> is_unpaid S inv = true
      /\ exists d, Fecha inv = Some d /\ 0 < Ts.days_between S d.
Proof.
  unfold overdue_unpaid, days_overdue. rewrite andb_true_iff.
  destruct (Fecha inv) as [d |]; cbn [option_map holds].
  - split.
    + intros [Hu Hn]. split; [exact Hu|]. exists d. split; [reflexivity | lia].
    + intros [Hu [d' [[= <-] Hn]]]. split; [exact Hu | lia].
  - split; [intros [_ H]; discriminate | intros [_ [d [[=] _]]]].
Qed.






(** ** The time axis *)

Section TimeAxis.

Local Ltac Zify.zify_post_hook ::= Z.to_euclidean_division_equations.




End TimeAxis.


Lemma Ts_leb_trans (a b c : Ts.Timestamp) :
  Ts.leb a b = true -> Ts.leb b c = true -> Ts.leb a c = true.
Proof.
  destruct a, b, c. unfold Ts.leb, Ts.ltb, Ts.eqb. cbn. lia.
Qed.














(** ** Runs *)





(** * Further properties of the engine *)

(** ** Aging on the day count *)

Lemma credited_bucket_days (S : Ts.Timestamp) (a : Acc) (inv : Invoice)
    (d : Ts.Timestamp) :
  Fecha inv = Some d -> is_unpaid S inv = true ->
  let n := Ts.days_between S d in
  (credited Deuda_0_3 a (scan_invoice S a inv) inv <-> 1 <= n <= 91)
  /\ (credited Deuda_3_6 a (scan_invoice S a inv) inv <-> 92 <= n <= 182)
  /\ (credited Deuda_6_12 a (scan_invoice S a inv) inv <-> 183 <= n <= 365)
  /\ (credited Deuda_gt_12 a (scan_invoice S a inv) inv <-> 366 <= n).
Proof.
  intros Hd Hu n. rewrite !credited_iff.
  unfold contributes, overdue_unpaid, months_overdue, days_overdue.
  rewrite Hd, Hu. cbn [option_map holds andb]. fold n.
  rewrite !months_ge, !months_lt_3, !months_lt_6, !months_lt_12.
  repeat split; lia.
Qed.

(** X1. For an invoice that is unpaid as of the snapshot, the division by
    30.44 amounts to fixed day thresholds: it is credited to 'Deuda 0-3
    Meses' from 1 to 91 days after its date, to 'Deuda 3-6 Meses' from 92
    to 182, to 'Deuda 6-12 Meses' from 183 to 365 and to 'Deuda > 12 Meses'
    from 366 days on. *)
Theorem X1_bucket_day_thresholds (S : Ts.Timestamp) (a : Acc) (inv : Invoice)
    (d : Ts.Timestamp) :
  Fecha inv = Some d -> is_unpaid S inv = true ->
  let n := Ts.days_between S d in
  (credited Deuda_0_3 a (scan_invoice S a inv) inv <-> 1 <= n <= 91)
  /\ (credited Deuda_3_6 a (scan_invoice S a inv) inv <-> 92 <= n <= 182)
  /\ (credited Deuda_6_12 a (scan_invoice S a inv) inv <-> 183 <= n <= 365)
  /\ (credited Deuda_gt_12 a (scan_invoice S a inv) inv <-> 366 <= n).
Proof. apply credited_bucket_days. Qed.

Lemma X1_witness :
  let S := Ts.mkTs 2025 1 11 in
  let d := Ts.mkTs 2024 1 10 in
  let inv := mkInvoice "Acme" "F-1" (Some d) None None 10000 in
  Fecha inv = Some d /\ is_unpaid S inv = true
  /\ Ts.days_between S d = 367
  /\ credited Deuda_gt_12 Acc0 (scan_invoice S Acc0 inv) inv.
Proof.
  cbv zeta. split; [reflexivity|]. split; [reflexivity|].
  split; [reflexivity|].
  apply (proj2 (proj2 (proj2
           (X1_bucket_day_thresholds (Ts.mkTs 2025 1 11) Acc0
              (mkInvoice "Acme" "F-1" (Some (Ts.mkTs 2024 1 10)) None None
                         10000)
              (Ts.mkTs 2024 1 10) eq_refl eq_refl)))).
  vm_compute. discriminate.
Defined.

(** ** Settled invoices *)

Lemma Ts_leb_not_ltb (a b : Ts.Timestamp) :
  Ts.leb a b = true -> Ts.ltb b a = false.
Proof.
  destruct a, b. unfold Ts.leb, Ts.ltb, Ts.eqb. cbn. lia.
Qed.

(** X2. An invoice whose payment date is on or before a snapshot is left
    out of every debt accumulator at that snapshot and at every later one:
    the loop body returns the accumulators unchanged. *)
Theorem X2_settled_invoice_left_out (S S' p : Ts.Timestamp) (a : Acc)
    (inv : Invoice) :
  Fecha_de_cobro inv = Some p ->
  Ts.leb p S = true -> Ts.leb S S' = true ->
  scan_invoice S' a inv = a.
Proof.
  intros Hp H1 H2.
  assert (Hu : is_unpaid S' inv = false).
  { unfold is_unpaid, Ts.gtb. rewrite Hp.
    apply Ts_leb_not_ltb. apply (Ts_leb_trans _ S); assumption. }
  unfold scan_invoice. rewrite Hu. destruct (Fecha inv); reflexivity.
Qed.

Lemma X2_witness :
  let inv := mkInvoice "Bolt" "F-2" (Some (Ts.mkTs 2024 1 12)) None
                       (Some (Ts.mkTs 2024 1 20)) 5000 in
  Ts.leb (Ts.mkTs 2024 1 20) (Ts.mkTs 2024 2 1) = true
  /\ Ts.leb (Ts.mkTs 2024 2 1) (Ts.mkTs 2024 7 1) = true
  /\ scan_invoice (Ts.mkTs 2024 7 1) Acc0 inv = Acc0.
Proof.
  cbv zeta. split; [reflexivity|]. split; [reflexivity|].
  apply (X2_settled_invoice_left_out (Ts.mkTs 2024 2 1) (Ts.mkTs 2024 7 1)
           (Ts.mkTs 2024 1 20)); reflexivity.
Defined.

(** ** The alert inside the buckets *)

Lemma days_to_previous_month_start (n : Z) (d : Ts.Timestamp) :
  Ts.days_between (Ts.month_start n) d
  <= Ts.days_between (Ts.DateOffset_months (-1) (Ts.month_start n)) d + 31.
Proof.
  rewrite DateOffset_month_start. unfold Ts.days_between.
  pose proof (toordinal_month_start_step (n + -1)) as St.
  replace (n + -1 + 1) with n in St by lia.
  pose proof (days_in_month_bounds ((n + -1) / 12) ((n + -1) mod 12 + 1)).
  lia.
Qed.

(** At a month start, a crossing invoice is in the bucket of 3 to 6
    months. *)
Lemma crossed_in_3_6 (n : Z) (inv : Invoice) :
  overdue_unpaid (Ts.month_start n) inv = true ->
  crossed_3_months (Ts.month_start n) inv = true ->
  contributes (Ts.month_start n) Deuda_3_6 inv = true.
Proof.
  intros Ho Hx. apply overdue_unpaid_iff in Ho.
  destruct Ho as [Hu [d [Hd Hn]]].
  apply crossed_days in Hx. destruct Hx as [d' [Hd' [Hp Hc]]].
  rewrite Hd in Hd'. injection Hd' as <-.
  apply (contributes_bucket _ inv d Deuda_3_6 Hd Hu Hn); [cbn; tauto|].
  cbn [bucket_range]. rewrite months_ge_3_iff, months_lt_6_iff.
  pose proof (days_to_previous_month_start n d). lia.
Qed.

Lemma sum_filter_le (p q : Invoice -> bool) (l : list Invoice) :
  (forall x, In x l -> p x = true -> q x = true) ->
  (forall x, In x l -> 0 <= Total x) ->
  sum_Z (map Total (filter p l)) <= sum_Z (map Total (filter q l))
  /\ (List.length (filter p l) <= List.length (filter q l))%nat.
Proof.
  induction l as [| x l IH]; intros Hpq Hpos; cbn [filter]; [cbn; lia|].
  destruct IH as [IH1 IH2].
  { intros y Hy. apply Hpq. now right. }
  { intros y Hy. apply Hpos. now right. }
  pose proof (Hpos x (or_introl eq_refl)) as Hx.
  pose proof (Hpq x (or_introl eq_refl)) as Hx'.
  destruct (p x), (q x); cbn [map sum_Z fold_right List.length];
    unfold sum_Z in *; lia.
Qed.

Lemma scan_acc (df : Ledger) (S : Ts.Timestamp) (client : string)
    (c : Concept) :
  acc_sum c (scan df S client)
  = sum_Z (map Total (filter (contributes S c) (client_invoices df S client)))
  /\ acc_list c (scan df S client)
     = map Num (filter (contributes S c) (client_invoices df S client)).
Proof.
  unfold scan.
  destruct (scan_fold S c (client_invoices df S client) Acc0) as [HL HS].
  rewrite HL, HS. destruct c; cbn; split; reflexivity.
Qed.

Lemma client_invoices_In (df : Ledger) (S : Ts.Timestamp) (client : string)
    (inv : Invoice) :
  In inv (client_invoices df S client) -> In inv df.
Proof.
  unfold client_invoices. intros H. apply filter_In in H.
  destruct H as [H _]. apply filter_In in H. tauto.
Qed.

(** X3. When no total of the ledger is negative, the accumulators of one
    [(snapshot, client)] iteration at a month start are ordered: the alert
    sum is at most the sum of the bucket of 3 to 6 months (every crossing
    invoice is in that bucket), and the paid-alert sum is at most the alert
    sum and at most the paid-debt sum; the lists are ordered in length the
    same way. *)
Theorem X3_alert_within_buckets (df : Ledger) (n : Z) (client : string) :
  (forall inv, In inv df -> 0 <= Total inv) ->
  let a := scan df (Ts.month_start n) client in
  crossed_3_months_sum a <= deuda_3_6_sum a
  /\ paid_alert_post_start_sum a <= crossed_3_months_sum a
  /\ paid_alert_post_start_sum a <= paid_debt_post_start_sum a
  /\ (List.length (list_crossed a) <= List.length (list_3_6 a))%nat
  /\ (List.length (list_paid_alert a) <= List.length (list_crossed a))%nat
  /\ (List.length (list_paid_alert a)
      <= List.length (list_paid_post_start a))%nat.
Proof.
  intros Hpos a. set (S := Ts.month_start n) in *.
  assert (Hp : forall x, In x (client_invoices df S client) -> 0 <= Total x)
    by (intros x Hx; apply Hpos; now apply client_invoices_In in Hx).
  assert (H : forall c c',
             (forall x, contributes S c x = true -> contributes S c' x = true)
             -> acc_sum c a <= acc_sum c' a
                /\ (List.length (acc_list c a)
                    <= List.length (acc_list c' a))%nat).
  { intros c c' Hcc. unfold a.
    destruct (scan_acc df S client c) as [-> ->].
    destruct (scan_acc df S client c') as [-> ->].
    rewrite !length_map. apply sum_filter_le; auto. }
  destruct (H Alerta_Paso_3 Deuda_3_6) as [A1 A2].
  { intros x Hx. cbn [contributes] in Hx. apply andb_true_iff in Hx.
    apply crossed_in_3_6; tauto. }
  destruct (H Pagos_Alerta_Post_Inicio Alerta_Paso_3) as [B1 B2].
  { intros x. cbn [contributes]. rewrite !andb_true_iff. tauto. }
  destruct (H Pagos_Alerta_Post_Inicio Pagos_Deuda_Post_Inicio) as [C1 C2].
  { intros x. cbn [contributes]. rewrite !andb_true_iff. tauto. }
  cbn [acc_sum acc_list] in *. repeat split; assumption.
Qed.

Lemma X3_witness :
  (forall inv, In inv (firstn 3 Ledgers.two_clients) -> 0 <= Total inv)
  /\ crossed_3_months_sum
       (scan (firstn 3 Ledgers.two_clients)
             (Ts.month_start (2024 * 12 + 4)) "Acme")
     <= deuda_3_6_sum
          (scan (firstn 3 Ledgers.two_clients)
                (Ts.month_start (2024 * 12 + 4)) "Acme").
Proof.
  cbv zeta.
  assert (H : forall inv, In inv (firstn 3 Ledgers.two_clients) ->
                          0 <= Total inv).
  { intros inv [<- | [<- | [<- | []]]]; vm_compute; discriminate. }
  split; [exact H|].
  apply (X3_alert_within_buckets (firstn 3 Ledgers.two_clients)
           (2024 * 12 + 4) "Acme" H).
Defined.

(** ** Aging over time *)

Definition bucket_rank (c : Concept) : Z :=
  match c with
  | Deuda_0_3 => 0
  | Deuda_3_6 => 1
  | Deuda_6_12 => 2
  | Deuda_gt_12 => 3
  | _ => -1
  end.

Lemma credited_unpaid_dated (S : Ts.Timestamp) (a : Acc) (inv : Invoice)
    (c : Concept) :
  credited c a (scan_invoice S a inv) inv ->
  is_unpaid S inv = true /\ exists d, Fecha inv = Some d.
Proof.
  rewrite credited_iff. intros H.
  assert (Ho : overdue_unpaid S inv = true).
  { unfold contributes in H. destruct c;
      rewrite ?andb_true_iff in H; try tauto. discriminate. }
  apply overdue_unpaid_iff in Ho. destruct Ho as [Hu [d [Hd _]]]. eauto.
Qed.

(** X4. Between two snapshots an invoice never moves to a younger bucket:
    if it is credited to an aging bucket at a month start and to an aging
    bucket at a later month start, the second bucket is the same or an
    older one. *)
Theorem X4_bucket_never_younger (n1 n2 : Z) (a1 a2 : Acc) (inv : Invoice)
    (c1 c2 : Concept) :
  n1 <= n2 ->
  In c1 aging_buckets -> In c2 aging_buckets ->
  credited c1 a1 (scan_invoice (Ts.month_start n1) a1 inv) inv ->
  credited c2 a2 (scan_invoice (Ts.month_start n2) a2 inv) inv ->
  bucket_rank c1 <= bucket_rank c2.
Proof.
  intros Hn Hc1 Hc2 H1 H2.
  destruct (credited_unpaid_dated _ _ _ _ H1) as [U1 [d Hd]].
  destruct (credited_unpaid_dated _ _ _ _ H2) as [U2 _].
  pose proof (credited_bucket_days (Ts.month_start n1) a1 inv d Hd U1) as B1.
  pose proof (credited_bucket_days (Ts.month_start n2) a2 inv d Hd U2) as B2.
  cbv zeta in B1, B2.
  pose proof (toordinal_month_start_mono n1 n2 Hn) as M.
  unfold Ts.days_between in *.
  destruct Hc1 as [<- | [<- | [<- | [<- | []]]]];
    destruct Hc2 as [<- | [<- | [<- | [<- | []]]]]; cbn [bucket_rank];
    try lia;
    repeat match goal with
           | B : _ /\ _ |- _ => destruct B
           | I : credited ?c ?a ?a' ?i <-> _, C : credited ?c ?a ?a' ?i |- _ =>
               apply I in C
           end; lia.
Qed.

Definition acme_invoice : Invoice :=
  mkInvoice "Acme" "F-1" (Some (Ts.mkTs 2024 1 10)) None None 10000.

Lemma X4_witness :
  credited Deuda_0_3 Acc0
           (scan_invoice (Ts.month_start (2024 * 12 + 3)) Acc0 acme_invoice)
           acme_invoice
  /\ credited Deuda_6_12 Acc0
              (scan_invoice (Ts.month_start (2024 * 12 + 7)) Acc0
                            acme_invoice)
              acme_invoice
  /\ bucket_rank Deuda_0_3 <= bucket_rank Deuda_6_12.
Proof.
  assert (H1 : credited Deuda_0_3 Acc0
                 (scan_invoice (Ts.month_start (2024 * 12 + 3)) Acc0
                               acme_invoice) acme_invoice)
    by (split; reflexivity).
  assert (H2 : credited Deuda_6_12 Acc0
                 (scan_invoice (Ts.month_start (2024 * 12 + 7)) Acc0
                               acme_invoice) acme_invoice)
    by (split; reflexivity).
  split; [exact H1|]. split; [exact H2|].
  apply (X4_bucket_never_younger (2024 * 12 + 3) (2024 * 12 + 7) Acc0 Acc0
           acme_invoice Deuda_0_3 Deuda_6_12);
    [lia | cbn; tauto | cbn; tauto | exact H1 | exact H2].
Defined.

(** ** The rows of the final frame *)

From Stdlib Require Import Sorted.

Lemma month_start_fields (n : Z) :
  Ts.day (Ts.month_start n) = 1 /\ 1 <= Ts.month (Ts.month_start n) <= 12.
Proof.
  unfold Ts.month_start. cbn [Ts.day Ts.month].
  pose proof (Z.mod_pos_bound n 12). lia.
Qed.

(** X5. Every row of the final frame is dated on the first day of a month,
    belongs to a client of the ledger, aggregates at least one invoice, and
    is flagged [Es_Mes_Actual] exactly when its year and month are those of
    [now]; all flagged rows carry the same report date. *)
Theorem X5_frame_rows_well_formed (df : Ledger) (now : Ts.Timestamp)
    (out : list OutRow) (o : OutRow) :
  gold_layer df now = Some out -> In o out ->
  Ts.day (Fecha_Reporte (gold o)) = 1
  /\ 1 <= Ts.month (Fecha_Reporte (gold o)) <= 12
  /\ In (G_Cliente (gold o)) (map Cliente df)
  /\ (1 <= Numero_Facturas (gold o))%nat
  /\ (Es_Mes_Actual (gold o) = true
      <-> Ts.year (Fecha_Reporte (gold o)) = Ts.year now
          /\ Ts.month (Fecha_Reporte (gold o)) = Ts.month now)
  /\ (forall o', In o' out -> Es_Mes_Actual (gold o) = true ->
                 Es_Mes_Actual (gold o') = true ->
                 Fecha_Reporte (gold o') = Fecha_Reporte (gold o)).
Proof.
  intros Ho Hin.
  destruct (gold_layer_snapshots df now out Ho) as [dr [Hs _]].
  assert (W : forall x, In x out ->
                Ts.day (Fecha_Reporte (gold x)) = 1
                /\ 1 <= Ts.month (Fecha_Reporte (gold x)) <= 12
                /\ Es_Mes_Actual (gold x)
                   = is_current_month now (Fecha_Reporte (gold x))).
  { intros x Hx.
    destruct (gold_layer_key df now dr out x _ _ _ Hs Ho Hx eq_refl)
      as [HS [_ Hr]].
    destruct (snapshots_month_start df now dr _ Hs HS) as [n En].
    rewrite En. destruct (month_start_fields n) as [D M].
    split; [exact D|]. split; [exact M|].
    rewrite Hr at 1. cbn [the_row Es_Mes_Actual]. now rewrite En. }
  destruct (W o Hin) as [D [M E]].
  destruct (gold_layer_key df now dr out o _ _ _ Hs Ho Hin eq_refl)
    as [_ [He Hr]].
  apply emitted_positive in He.
  split; [exact D|]. split; [exact M|]. split; [|split; [|split]].
  - apply (amount_positive_client df _ _ _ He).
  - rewrite Hr. cbn [the_row Numero_Facturas]. unfold amount in He.
    destruct (members df _ _ _); cbn in *; lia.
  - rewrite E. unfold is_current_month. lia.
  - intros o' Hin' F F'. destruct (W o' Hin') as [D' [M' E']].
    rewrite E in F. rewrite E' in F'. unfold is_current_month in F, F'.
    destruct (Fecha_Reporte (gold o)), (Fecha_Reporte (gold o')).
    cbn in *. f_equal; lia.
Qed.

Lemma X5_witness :
  let dr := date_range_MS (Ts.mkTs 2024 1 1) (Ts.mkTs 2024 8 1) in
  let out := variance_pass (gold_rows Ledgers.acme Ledgers.august dr) in
  let o := mkOutRow (mkGoldRow (Ts.mkTs 2024 3 1) "Acme" Deuda_0_3 10000
                               false 1 "F-1") 0 in
  gold_layer Ledgers.acme Ledgers.august = Some out
  /\ In o out
  /\ In (G_Cliente (gold o)) (map Cliente Ledgers.acme).
Proof.
  cbv zeta.
  assert (Ho : gold_layer Ledgers.acme Ledgers.august
               = Some (variance_pass
                         (gold_rows Ledgers.acme Ledgers.august
                            (date_range_MS (Ts.mkTs 2024 1 1)
                                           (Ts.mkTs 2024 8 1)))))
    by (vm_compute; reflexivity).
  assert (Hin : In (mkOutRow (mkGoldRow (Ts.mkTs 2024 3 1) "Acme" Deuda_0_3
                                        10000 false 1 "F-1") 0)
                   (variance_pass
                      (gold_rows Ledgers.acme Ledgers.august
                         (date_range_MS (Ts.mkTs 2024 1 1)
                                        (Ts.mkTs 2024 8 1)))))
    by (vm_compute; right; right; left; reflexivity).
  split; [exact Ho|]. split; [exact Hin|].
  apply (X5_frame_rows_well_formed _ _ _ _ Ho Hin).
Defined.

(** ** The order of the final frame *)

Lemma Ts_leb_total (a b : Ts.Timestamp) :
  Ts.leb a b = false -> Ts.leb b a = true.
Proof. destruct a, b. unfold Ts.leb, Ts.ltb, Ts.eqb. cbn. lia. Qed.

Lemma row_leb_total (a b : GoldRow) :
  row_leb a b = false -> row_leb b a = true.
Proof.
  unfold row_leb.
  rewrite (String.compare_antisym (G_Cliente a) (G_Cliente b)).
  rewrite (String.compare_antisym (Concept_label (Concepto a))
                                  (Concept_label (Concepto b))).
  destruct (String.compare (G_Cliente b) (G_Cliente a));
    cbn [CompOpp]; try congruence.
  destruct (String.compare (Concept_label (Concepto b))
                           (Concept_label (Concepto a)));
    cbn [CompOpp]; try congruence.
  apply Ts_leb_total.
Qed.

Definition row_le (a b : GoldRow) : Prop := row_leb a b = true.

Lemma insert_row_Sorted (r : GoldRow) (l : list GoldRow) :
  Sorted row_le l -> Sorted row_le (insert_row r l).
Proof.
  induction l as [| x l IH]; intros Hs; cbn [insert_row].
  - repeat constructor.
  - destruct (row_leb r x) eqn:E.
    + constructor; [exact Hs | constructor; exact E].
    + inversion Hs as [| ? ? Hs' Hd]; subst.
      constructor; [now apply IH|].
      destruct l as [| y l]; cbn [insert_row].
      * constructor. now apply row_leb_total.
      * destruct (row_leb r y); constructor;
          [now apply row_leb_total | now inversion Hd].
Qed.

Lemma sort_values_Sorted (l : list GoldRow) : Sorted row_le (sort_values l).
Proof.
  induction l as [| x l IH]; cbn; [constructor|].
  now apply insert_row_Sorted.
Qed.

(** X6. The rows of the final frame come out in the order of
    [sort_values]: each row is followed by a row that is not before it in
    the order by client, then concept label, then report date; the merge
    keeps that order. *)
Theorem X6_frame_sorted (df : Ledger) (now : Ts.Timestamp)
    (out : list OutRow) :
  gold_layer df now = Some out ->
  Sorted row_le (map gold out).
Proof.
  intros Ho. destruct (gold_layer_snapshots df now out Ho) as [dr [Hs _]].
  rewrite (gold_layer_gold df now dr out Hs Ho). apply sort_values_Sorted.
Qed.

Lemma X6_witness :
  gold_layer Ledgers.two_clients Ledgers.august
  = Some (variance_pass
            (gold_rows Ledgers.two_clients Ledgers.august
               (date_range_MS (Ts.mkTs 2024 1 1) (Ts.mkTs 2024 8 1))))
  /\ Sorted row_le
       (map gold
          (variance_pass
             (gold_rows Ledgers.two_clients Ledgers.august
                (date_range_MS (Ts.mkTs 2024 1 1) (Ts.mkTs 2024 8 1))))).
Proof.
  assert (Ho : gold_layer Ledgers.two_clients Ledgers.august
               = Some (variance_pass
                         (gold_rows Ledgers.two_clients Ledgers.august
                            (date_range_MS (Ts.mkTs 2024 1 1)
                                           (Ts.mkTs 2024 8 1)))))
    by (vm_compute; reflexivity).
  split; [exact Ho|]. apply (X6_frame_sorted _ _ _ Ho).
Defined.

(** ** The export *)

Lemma sum_nonpositive (l : list Invoice) :
  (forall inv, In inv l -> Total inv <= 0) -> sum_Z (map Total l) <= 0.
Proof.
  induction l as [| x l IH]; intros H; cbn; [lia|].
  pose proof (H x (or_introl eq_refl)).
  assert (sum_Z (map Total l) <= 0) by (apply IH; intros; apply H; now right).
  unfold sum_Z in *. lia.
Qed.

Lemma gold_rows_none (df : Ledger) (now : Ts.Timestamp)
    (dr : list Ts.Timestamp) :
  (forall inv, In inv df -> Total inv <= 0) -> gold_rows df now dr = [].
Proof.
  intros H. destruct (gold_rows df now dr) as [| r l] eqn:E; [reflexivity|].
  exfalso.
  assert (Hr : In r (gold_rows df now dr)) by (rewrite E; now left).
  apply in_gold_rows in Hr. destruct Hr as [S [client [c [_ [He _]]]]].
  apply emitted_positive in He. unfold amount in He.
  assert (sum_Z (map Total (members df S client c)) <= 0); [|lia].
  apply sum_nonpositive. intros inv Hi. apply H.
  now apply (members_In df S client c inv).
Qed.

(** X7. A ledger without a positive total exports nothing: whatever the
    clock, the run does not report an export and the worksheet keeps the
    content it had (it is neither cleared nor created). *)
Theorem X7_nothing_exported_without_positive_total (df : Ledger)
    (now : Ts.Timestamp) (sink : Sink) :
  (forall inv, In inv df -> Total inv <= 0) ->
  snd (main df now sink) = sink
  /\ forall n, fst (main df now sink) <> Exported n.
Proof.
  intros H. unfold main, gold_layer.
  destruct (snapshots df now) as [dr |]; [|split; [reflexivity|discriminate]].
  rewrite (gold_rows_none df now dr H). split; [reflexivity | discriminate].
Qed.

Lemma X7_witness :
  main Ledgers.acme_zero Ledgers.august (Some [[CStr "stale"]])
  = (Nothing_to_export, Some [[CStr "stale"]]).
Proof.
  assert (H : forall inv, In inv Ledgers.acme_zero -> Total inv <= 0).
  { intros inv [<- | []]. vm_compute. discriminate. }
  destruct (X7_nothing_exported_without_positive_total
              Ledgers.acme_zero Ledgers.august (Some [[CStr "stale"]]) H)
    as [E _].
  destruct (main Ledgers.acme_zero Ledgers.august (Some [[CStr "stale"]]))
    as [o s] eqn:M.
  cbn [snd] in E. subst s. f_equal.
  apply (f_equal fst) in M. cbn [fst] in M. rewrite <- M.
  vm_compute. reflexivity.
Defined.

(** X8. When a run reports an export of [n] rows, there were snapshots,
    [n] is at least 1 and is both the number of rows appended by the
    aggregation loop and the number of rows of the final frame, and the
    worksheet holds the header line followed by one line of eight cells
    per row of the final frame, in the order of the frame. *)
Theorem X8_export_sheet (df : Ledger) (now : Ts.Timestamp)
    (sink sink' : Sink) (n : nat) :
  main df now sink = (Exported n, sink') ->
  exists dr out,
    snapshots df now = Some dr
    /\ gold_layer df now = Some out
    /\ (1 <= n)%nat
    /\ n = List.length (gold_rows df now dr)
    /\ n = List.length out
    /\ sink' = Some (columns :: map export_row out)
    /\ Forall (fun line => List.length line = 8%nat)
              (columns :: map export_row out).
Proof.
  unfold main. intros H.
  destruct (gold_layer df now) as [out |] eqn:Ho; [|discriminate].
  destruct (gold_layer_snapshots df now _ Ho) as [dr [Hs _]].
  assert (L : List.length out = List.length (gold_rows df now dr)).
  { rewrite <- (length_map gold out).
    rewrite (gold_layer_gold df now dr _ Hs Ho).
    apply Permutation_length. apply sort_values_Permutation. }
  exists dr, out. rewrite <- L.
  destruct out as [| o out]; [discriminate|].
  injection H as <- <-.
  split; [exact Hs|]. split; [reflexivity|]. split; [cbn; lia|].
  split; [reflexivity|]. split; [reflexivity|]. split; [reflexivity|].
  constructor; [reflexivity|].
  apply Forall_forall. intros line Hl. apply in_map_iff in Hl.
  destruct Hl as [x [<- _]]. reflexivity.
Qed.

Lemma X8_witness :
  exists sheet,
    main Ledgers.acme Ledgers.august None = (Exported 9, Some sheet)
    /\ List.length sheet = 10%nat.
Proof.
  destruct (main Ledgers.acme Ledgers.august None) as [o s] eqn:M.
  assert (Eo : o = Exported 9)
    by (apply (f_equal fst) in M; cbn [fst] in M; rewrite <- M;
        vm_compute; reflexivity).
  subst o.
  destruct (X8_export_sheet _ _ _ _ _ M)
    as [dr [out [_ [_ [_ [_ [L [-> _]]]]]]]].
  eexists. split; [reflexivity|].
  cbn [List.length]. rewrite length_map. now rewrite <- L.
Defined.

(** ** Billing over the whole time axis *)










(** * [clean_currency] (lines 44-52)

    A Python string is the list of its code points.  [float] of Python is
    not modelled: the conversion of the cleaned string is a parameter,
    [None] standing for [ValueError]. *)

Module Currency.

Definition str := list N.

Definition EURO : N := 8364.
Definition DOLLAR : N := 36.
Definition COMMA : N := 44.

(** [s.replace(c, '')] for a one-character [c]. *)
Definition remove_char (c : N) (s : str) : str :=
  filter (fun x => negb (N.eqb x c)) s.

(** The characters [str.strip()] removes: those for which [str.isspace]
    holds. *)
Definition isspace (c : N) : bool :=
  ((9 <=? c) && (c <=? 13) || (28 <=? c) && (c <=? 32)
   || (c =? 133) || (c =? 160) || (c =? 5760)
   || (8192 <=? c) && (c <=? 8202)
   || (c =? 8232) || (c =? 8233) || (c =? 8239) || (c =? 8287)
   || (c =? 12288))%N.

Fixpoint lstrip (s : str) : str :=
  match s with
  | [] => []
  | c :: r => if isspace c then lstrip r else s
  end.

Definition rstrip (s : str) : str := rev (lstrip (rev s)).

Definition strip (s : str) : str := rstrip (lstrip s).

(** Line 47. *)
Definition clean_str (x : str) : str :=
  strip (remove_char COMMA (remove_char DOLLAR (remove_char EURO x))).

Section Float.

Variable float : Type.
Variable other : Type.
(** [float(s)] *)
Variable float_of_str : str -> option float.
(** [0.0] *)
Variable zero : float.

(** The argument: a string, or anything else. *)
Inductive value : Type :=
| Str (s : str)
| Other (v : other).

(** The result: a float, or the argument as it came. *)
Inductive result : Type :=
| Float (f : float)
| Unchanged (v : other).

Definition clean_currency (x : value) : result :=
  match x with
  | Str s =>
      match float_of_str (clean_str s) with
      | Some f => Float f
      | None => Float zero
      end
  | Other v => Unchanged v
  end.

End Float.

Definition symbol (c : N) : Prop := c = EURO \/ c = DOLLAR \/ c = COMMA.

(** The comment of line 46: [' 139.15 € '] is cleaned to ['139.15']. *)
Example clean_str_comment :
  clean_str [32; 49; 51; 57; 46; 49; 53; 32; 8364; 32]%N
  = [49; 51; 57; 46; 49; 53]%N.
Proof. reflexivity. Qed.

Lemma remove_char_app (c : N) (s1 s2 : str) :
  remove_char c (s1 ++ s2) = remove_char c s1 ++ remove_char c s2.
Proof. apply filter_app. Qed.

Lemma remove_char_comm (c1 c2 : N) (s : str) :
  remove_char c1 (remove_char c2 s) = remove_char c2 (remove_char c1 s).
Proof.
  unfold remove_char. rewrite !filter_filter. apply filter_ext.
  intros x. apply andb_comm.
Qed.

Lemma remove_char_same (c : N) (s1 s2 : str) :
  remove_char c (s1 ++ c :: s2) = remove_char c (s1 ++ s2).
Proof.
  rewrite !remove_char_app. cbn. now rewrite N.eqb_refl.
Qed.

Lemma remove_symbols_insert (c : N) (s1 s2 : str) :
  symbol c ->
  remove_char COMMA (remove_char DOLLAR (remove_char EURO (s1 ++ c :: s2)))
  = remove_char COMMA (remove_char DOLLAR (remove_char EURO (s1 ++ s2))).
Proof.
  intros [-> | [-> | ->]].
  - now rewrite remove_char_same.
  - rewrite (remove_char_comm DOLLAR EURO (s1 ++ DOLLAR :: s2)).
    rewrite remove_char_same.
    now rewrite (remove_char_comm EURO DOLLAR).
  - rewrite (remove_char_comm COMMA DOLLAR),
            (remove_char_comm COMMA EURO (s1 ++ COMMA :: s2)).
    rewrite remove_char_same.
    now rewrite (remove_char_comm EURO COMMA), (remove_char_comm DOLLAR COMMA).
Qed.

(** X10. A euro sign, a dollar sign or a comma is dropped wherever it
    stands in the string: the value with the character is the value
    without it.  So a comma is never read as a decimal point (['12,50']
    gives the value of ['1250']). *)
Theorem X10_symbols_dropped (float other : Type)
    (float_of_str : str -> option float) (zero : float) (c : N)
    (s1 s2 : str) :
  symbol c ->
  clean_currency float other float_of_str zero (Str other (s1 ++ c :: s2))
  = clean_currency float other float_of_str zero (Str other (s1 ++ s2)).
Proof.
  intros Hc. unfold clean_currency, clean_str.
  now rewrite (remove_symbols_insert c s1 s2 Hc).
Qed.

Lemma X10_witness :
  symbol 44%N
  /\ clean_currency Z unit (fun s => Some (Z.of_nat (List.length s))) 0
       (Str unit ([49; 50] ++ 44 :: [53; 48])%N)
     = clean_currency Z unit (fun s => Some (Z.of_nat (List.length s))) 0
         (Str unit ([49; 50] ++ [53; 48])%N).
Proof.
  assert (H : symbol 44%N) by (right; right; reflexivity).
  split; [exact H|].
  apply (X10_symbols_dropped Z unit _ 0 44%N [49; 50]%N [53; 48]%N H).
Defined.

(** ** Stripping *)

Lemma lstrip_suffix (s : str) : exists p, s = p ++ lstrip s.
Proof.
  induction s as [| c r [p IH]]; [exists []; reflexivity|].
  cbn [lstrip]. destruct (isspace c).
  - exists (c :: p). cbn. now rewrite <- IH.
  - exists []. reflexivity.
Qed.

Lemma lstrip_head (s : str) (c : N) :
  hd_error (lstrip s) = Some c -> isspace c = false.
Proof.
  induction s as [| x r IH]; cbn [lstrip]; [discriminate|].
  destruct (isspace x) eqn:E; [exact IH|].
  cbn. now intros [= <-].
Qed.

Lemma lstrip_fixed (s : str) :
  (forall c, hd_error s = Some c -> isspace c = false) -> lstrip s = s.
Proof.
  destruct s as [| x r]; [reflexivity|]. intros H. cbn [lstrip].
  now rewrite (H x eq_refl).
Qed.

(** What [strip] returns starts and ends with a character that is not
    white space. *)
Lemma strip_ends (s : str) (c : N) :
  (hd_error (strip s) = Some c -> isspace c = false)
  /\ (hd_error (rev (strip s)) = Some c -> isspace c = false).
Proof.
  unfold strip, rstrip. split.
  - destruct (lstrip_suffix (rev (lstrip s))) as [p Hp].
    apply (f_equal (@rev N)) in Hp. rewrite rev_involutive, rev_app_distr in Hp.
    destruct (rev (lstrip (rev (lstrip s)))) as [| x t]; [discriminate|].
    cbn. intros [= <-]. apply (lstrip_head s). now rewrite Hp.
  - rewrite rev_involutive. apply lstrip_head.
Qed.

Lemma strip_fixed (s : str) :
  (forall c, hd_error s = Some c -> isspace c = false) ->
  (forall c, hd_error (rev s) = Some c -> isspace c = false) ->
  strip s = s.
Proof.
  intros H1 H2. unfold strip, rstrip.
  rewrite (lstrip_fixed s H1), (lstrip_fixed (rev s) H2).
  apply rev_involutive.
Qed.

Lemma strip_idempotent (s : str) : strip (strip s) = strip s.
Proof. apply strip_fixed; intros c; apply strip_ends. Qed.

Lemma lstrip_Forall (P : N -> Prop) (s : str) :
  Forall P s -> Forall P (lstrip s).
Proof.
  induction 1 as [| x r Hx Hr IH]; cbn [lstrip]; [constructor|].
  destruct (isspace x); [exact IH | now constructor].
Qed.

Lemma strip_Forall (P : N -> Prop) (s : str) :
  Forall P s -> Forall P (strip s).
Proof.
  intros H. unfold strip, rstrip.
  apply Forall_rev, lstrip_Forall, Forall_rev, lstrip_Forall, H.
Qed.

Lemma remove_char_Forall (c : N) (s : str) :
  Forall (fun x => x <> c) (remove_char c s).
Proof.
  apply Forall_forall. intros x Hx. apply filter_In in Hx.
  destruct Hx as [_ Hx]. apply negb_true_iff, N.eqb_neq in Hx. exact Hx.
Qed.

Lemma remove_char_keeps (P : N -> Prop) (c : N) (s : str) :
  Forall P s -> Forall P (remove_char c s).
Proof.
  rewrite !Forall_forall. intros H x Hx. apply filter_In in Hx. now apply H.
Qed.

Lemma remove_char_fixed (c : N) (s : str) :
  Forall (fun x => x <> c) s -> remove_char c s = s.
Proof.
  unfold remove_char.
  induction 1 as [| x r Hx Hr IH]; cbn [filter]; [reflexivity|].
  apply N.eqb_neq in Hx. rewrite Hx. cbn [negb]. now rewrite IH.
Qed.

Lemma clean_str_no_symbol (s : str) :
  Forall (fun x => x <> EURO /\ x <> DOLLAR /\ x <> COMMA) (clean_str s).
Proof.
  unfold clean_str. apply strip_Forall.
  assert (E : Forall (fun x => x <> EURO) (remove_char EURO s))
    by apply remove_char_Forall.
  assert (D : Forall (fun x => x <> DOLLAR)
                     (remove_char DOLLAR (remove_char EURO s)))
    by apply remove_char_Forall.
  assert (C : Forall (fun x => x <> COMMA)
                     (remove_char COMMA
                        (remove_char DOLLAR (remove_char EURO s))))
    by apply remove_char_Forall.
  apply (remove_char_keeps _ DOLLAR) in E.
  apply (remove_char_keeps _ COMMA) in E.
  apply (remove_char_keeps _ COMMA) in D.
  rewrite Forall_forall in *. intros x Hx.
  split; [now apply E | split; [now apply D | now apply C]].
Qed.

Lemma clean_str_idempotent (s : str) : clean_str (clean_str s) = clean_str s.
Proof.
  pose proof (clean_str_no_symbol s) as H.
  unfold clean_str at 1.
  rewrite (remove_char_fixed EURO), (remove_char_fixed DOLLAR),
          (remove_char_fixed COMMA).
  - unfold clean_str. apply strip_idempotent.
  - eapply Forall_impl; [|exact H]. cbn. tauto.
  - eapply Forall_impl; [|exact H]. cbn. tauto.
  - eapply Forall_impl; [|exact H]. cbn. tauto.
Qed.

(** X11. The string handed to [float] holds no euro sign, dollar sign or
    comma and neither starts nor ends with white space; cleaning it again
    changes nothing, so a value that was cleaned once is read the same
    way a second time. *)
Theorem X11_cleaned_string (float other : Type)
    (float_of_str : str -> option float) (zero : float) (s : str) :
  Forall (fun x => x <> EURO /\ x <> DOLLAR /\ x <> COMMA) (clean_str s)
  /\ (forall c, hd_error (clean_str s) = Some c -> isspace c = false)
  /\ (forall c, hd_error (rev (clean_str s)) = Some c -> isspace c = false)
  /\ clean_str (clean_str s) = clean_str s
  /\ clean_currency float other float_of_str zero (Str other (clean_str s))
     = clean_currency float other float_of_str zero (Str other s).
Proof.
  split; [apply clean_str_no_symbol|].
  split; [intros c; apply strip_ends|].
  split; [intros c; apply strip_ends|].
  split; [apply clean_str_idempotent|].
  unfold clean_currency. now rewrite clean_str_idempotent.
Qed.

End Currency.

(** * The exported dates (lines 331-332) *)

Section Strftime.

Local Ltac Zify.zify_post_hook ::= Z.to_euclidean_division_equations.

Lemma digit_inj (a b : Z) : digit a = digit b -> a mod 10 = b mod 10.
Proof.
  unfold digit. intros H.
  apply (f_equal nat_of_ascii) in H.
  rewrite !nat_ascii_embedding in H by lia. lia.
Qed.

Lemma strftime_length (t : Ts.Timestamp) : String.length (strftime t) = 10%nat.
Proof. reflexivity. Qed.

(** X12. A report date is exported as ten characters, and for calendar
    dates of the years 0 to 9999 the text determines the date: two rows
    with different report dates never show the same text. *)
Theorem X12_strftime_injective (a b : Ts.Timestamp) :
  Ts.valid a -> Ts.valid b ->
  0 <= Ts.year a <= 9999 -> 0 <= Ts.year b <= 9999 ->
  String.length (strftime a) = 10%nat
  /\ (strftime a = strftime b -> a = b).
Proof.
  intros [Ma Da] [Mb Db] Ya Yb. split; [reflexivity|].
  pose proof (days_in_month_bounds (Ts.year a) (Ts.month a)).
  pose proof (days_in_month_bounds (Ts.year b) (Ts.month b)).
  destruct a as [ya ma da], b as [yb mb db].
  cbn [Ts.year Ts.month Ts.day] in *.
  unfold strftime, pad4, pad2. cbn [Ts.year Ts.month Ts.day append].
  intros E. injection E as E1 E2 E3 E4 E5 E6 E7 E8.
  apply digit_inj in E1, E2, E3, E4, E5, E6, E7, E8.
  f_equal; lia.
Qed.

End Strftime.

Lemma X12_witness :
  Ts.valid (Ts.mkTs 2024 2 1)
  /\ strftime (Ts.mkTs 2024 2 1) = "2024-02-01"%string
  /\ (strftime (Ts.mkTs 2024 2 1) = strftime (Ts.mkTs 2024 2 1) ->
      Ts.mkTs 2024 2 1 = Ts.mkTs 2024 2 1).
Proof.
  assert (V : Ts.valid (Ts.mkTs 2024 2 1))
    by (vm_compute; intuition discriminate).
  split; [exact V|]. split; [reflexivity|].
  apply (X12_strftime_injective (Ts.mkTs 2024 2 1) (Ts.mkTs 2024 2 1) V V);
    cbn; lia.
Defined.

(** * The debt rows *)






